(** * Wheelie: the chance-wheel bot (src/wheel_bot.py)

    A shallow embedding of the wheel data model, the colour resolver, the
    per-guild store with its in-memory cache, the slash-command handlers
    (create / add / remove / edit / spin) and the pie-slice part of the
    renderer, followed by the properties established about them.

    Modelling conventions.
    - Python [str] is [string], the text in UTF-8.  For colour tokens the
      text functions ([lower], [upper], [strip], [len], [int(_, 16)]) are
      given for 7-bit ASCII text.  Section names can be any text: the
      handlers only compare them, lower-cased or as they are, and
      [str.lower], which knows all of Unicode, is a parameter of the
      development (class [Library]).
    - Pillow is not part of the program; whether it draws a section or
      raises (a fill colour it does not know is a [ValueError]) is the second
      parameter of [Library].  The instance [ascii_library] is used where a
      concrete wheel is evaluated.
    - Python [float] is kept abstract behind the class [Arith]: the handlers
      only add, subtract, multiply, divide and compare percentages.  Two
      instances are provided: [float_arith] (IEEE-754 binary64, what CPython
      runs) and [Q_arith] (exact rationals, the "positive real number" of the
      data model).  Results that do not depend on arithmetic laws are proved
      for every instance.
    - The module-level state (the bot's [wheels] cache, the sqlite table and
      the [random] generator) is one record [World], threaded through a small
      state monad.  A handler's user-visible reply is a [Response]. *)

From Stdlib Require Import ZArith QArith Lqa Lia Bool List String Ascii PrimFloat.
From stdpp Require Import base option list gmap strings.

Open Scope string_scope.
Open Scope Z_scope.

(** ** Text *)

Definition ord (c : ascii) : Z := Z.of_nat (nat_of_ascii c).
Definition chr (n : Z) : ascii := ascii_of_nat (Z.to_nat n).

Definition between (lo hi : Z) (c : ascii) : bool :=
  (lo <=? ord c) && (ord c <=? hi).

(** [str.lower] / [str.upper] on one ASCII character. *)
Definition lower_char (c : ascii) : ascii :=
  if between 65 90 c then chr (ord c + 32) else c.

Definition upper_char (c : ascii) : ascii :=
  if between 97 122 c then chr (ord c - 32) else c.

(** [str.isspace] on ASCII: TAB..CR, FS..US and the space. *)
Definition str_isspace (c : ascii) : bool :=
  between 9 13 c || between 28 32 c.

(** CPython's [Py_ISSPACE], the whitespace [int()] skips. *)
Definition Py_ISSPACE (c : ascii) : bool :=
  between 9 13 c || (ord c =? 32).

Fixpoint lower (s : string) : string :=
  match s with
  | EmptyString => EmptyString
  | String c r => String (lower_char c) (lower r)
  end.

Fixpoint upper (s : string) : string :=
  match s with
  | EmptyString => EmptyString
  | String c r => String (upper_char c) (upper r)
  end.

Fixpoint lstrip (s : string) : string :=
  match s with
  | EmptyString => EmptyString
  | String c r => if str_isspace c then lstrip r else s
  end.

Fixpoint rstrip (s : string) : string :=
  match s with
  | EmptyString => EmptyString
  | String c r =>
      match rstrip r with
      | EmptyString => if str_isspace c then EmptyString else String c EmptyString
      | r' => String c r'
      end
  end.

Definition strip (s : string) : string := rstrip (lstrip s).

(** [s.startswith('#')] *)
Definition startswith_hash (s : string) : bool :=
  match s with
  | String c _ => Ascii.eqb c "#"
  | EmptyString => false
  end.

(** [s[1:]] *)
Definition slice_from_1 (s : string) : string :=
  match s with
  | String _ r => r
  | EmptyString => EmptyString
  end.

(** *** [int(text, 16)]

    CPython's [PyLong_FromString] with base 16: leading blanks, an optional
    sign, an optional [0x] prefix (which may be followed by one underscore),
    then hexadecimal digits in which single underscores may separate digits,
    then trailing blanks.  [None] stands for [ValueError]. *)

Definition hex_digit_value (c : ascii) : option Z :=
  if between 48 57 c then Some (ord c - 48)
  else if between 97 102 c then Some (ord c - 87)
  else if between 65 70 c then Some (ord c - 55)
  else None.

Fixpoint skip_spaces (s : string) : string :=
  match s with
  | String c r => if Py_ISSPACE c then skip_spaces r else s
  | EmptyString => EmptyString
  end.

(** The digit scan: [prev_us] says the previous character was an
    underscore; the result is the value, the number of digits read and the
    unread rest. *)
Fixpoint scan_hex (prev_us : bool) (acc : Z) (digits : nat) (s : string)
  : option (Z * nat * string) :=
  match s with
  | String c r =>
      if Ascii.eqb c "_" then
        if prev_us then None else scan_hex true acc digits r
      else
        match hex_digit_value c with
        | Some d => scan_hex false (16 * acc + d) (S digits) r
        | None => if prev_us then None else Some (acc, digits, s)
        end
  | EmptyString => if prev_us then None else Some (acc, digits, s)
  end.

Definition skip_sign (s : string) : bool * string :=
  match s with
  | String c r =>
      if Ascii.eqb c "+" then (false, r)
      else if Ascii.eqb c "-" then (true, r)
      else (false, s)
  | EmptyString => (false, s)
  end.

Definition skip_0x (s : string) : string :=
  match s with
  | String c0 (String c1 r) =>
      if Ascii.eqb c0 "0" && (Ascii.eqb c1 "x" || Ascii.eqb c1 "X") then
        match r with
        | String u r' => if Ascii.eqb u "_" then r' else r
        | EmptyString => r
        end
      else s
  | _ => s
  end.

Definition int_base16 (text : string) : option Z :=
  let '(negative, s) := skip_sign (skip_spaces text) in
  let s := skip_0x s in
  match s with
  | String c _ =>
      if Ascii.eqb c "_" then None
      else
        match scan_hex false 0 0 s with
        | Some (v, digits, rest) =>
            if (digits =? 0)%nat then None
            else
              match skip_spaces rest with
              | EmptyString => Some (if negative then - v else v)
              | _ => None
              end
        | None => None
        end
  | EmptyString => None
  end.

(** *** [f"{n:06X}"] *)

Definition hex_upper_digit (d : Z) : ascii :=
  if d <? 10 then chr (48 + d) else chr (55 + d).

Fixpoint hex_upper_aux (fuel : nat) (n : Z) (acc : string) : string :=
  match fuel with
  | O => acc
  | S fuel' =>
      let acc' := String (hex_upper_digit (n mod 16)) acc in
      if n <? 16 then acc' else hex_upper_aux fuel' (n / 16) acc'
  end.

(** Upper-case hexadecimal digits of [n >= 0], no leading zero. *)
Definition format_X (n : Z) : string :=
  hex_upper_aux (S (Z.to_nat (Z.log2 n))) n EmptyString.

Fixpoint zeros (k : nat) : string :=
  match k with
  | O => EmptyString
  | S k' => String "0" (zeros k')
  end.

Definition zfill (width : nat) (s : string) : string :=
  zeros (width - String.length s) ++ s.

Definition format_06X (n : Z) : string :=
  if n <? 0 then String "-" (zfill 5 (format_X (- n)))
  else zfill 6 (format_X n).

(** The predefined colours of [_parse_color]. *)
Definition color_map : gmap string string :=
  list_to_map
    [ ("red", "#FF0000"); ("blue", "#0000FF"); ("green", "#00FF00");
      ("yellow", "#FFFF00"); ("orange", "#FFA500"); ("purple", "#800080");
      ("pink", "#FFC0CB"); ("cyan", "#00FFFF"); ("magenta", "#FF00FF");
      ("lime", "#00FF00"); ("navy", "#000080"); ("teal", "#008080");
      ("olive", "#808000"); ("maroon", "#800000"); ("gray", "#808080");
      ("silver", "#C0C0C0"); ("black", "#000000"); ("white", "#FFFFFF") ].

(** ** Numbers

    What the handlers need of Python's [float]: the literals [0], [100] and
    [360], the four operations and the two comparisons they write ([a <= b]
    and [a < b]; [a > b] is [b < a]).  No law is assumed. *)

Class Arith (F : Type) := {
  fnum : Z -> F;
  fadd : F -> F -> F;
  fsub : F -> F -> F;
  fmul : F -> F -> F;
  fdiv : F -> F -> F;
  fle : F -> F -> bool;
  flt : F -> F -> bool
}.

(** Exact rationals. *)
#[export] Instance Q_arith : Arith Q := {|
  fnum := inject_Z;
  fadd := Qplus;
  fsub := Qminus;
  fmul := Qmult;
  fdiv := Qdiv;
  fle := Qle_bool;
  flt := fun a b => negb (Qle_bool b a)
|}.

(** Binary64.  [float_of_pos] is exact below [2^53], which covers the
    literals of the program. *)
Fixpoint float_of_pos (p : positive) : float :=
  match p with
  | xH => 1%float
  | xO p' => PrimFloat.mul 2%float (float_of_pos p')
  | xI p' => PrimFloat.add (PrimFloat.mul 2%float (float_of_pos p')) 1%float
  end.

Definition float_of_Z (z : Z) : float :=
  match z with
  | Z0 => 0%float
  | Zpos p => float_of_pos p
  | Zneg p => PrimFloat.opp (float_of_pos p)
  end.

#[export] Instance float_arith : Arith float := {|
  fnum := float_of_Z;
  fadd := PrimFloat.add;
  fsub := PrimFloat.sub;
  fmul := PrimFloat.mul;
  fdiv := PrimFloat.div;
  fle := PrimFloat.leb;
  flt := PrimFloat.ltb
|}.

(** ** Data model *)

(** [class WheelSection]: the three attributes set by [__init__]. *)
Record WheelSection (F : Type) := mkSection {
  name : string;
  percentage : F;
  color : string
}.
Arguments mkSection {F} _ _ _.
Arguments name {F} _.
Arguments percentage {F} _.
Arguments color {F} _.

(** The dictionary written by [to_dict] and read by [from_dict]: keys
    ['name'], ['percentage'], ['color']. *)
Record SectionDict (F : Type) := mkDict {
  dict_name : string;
  dict_percentage : F;
  dict_color : string
}.
Arguments mkDict {F} _ _ _.
Arguments dict_name {F} _.
Arguments dict_percentage {F} _.
Arguments dict_color {F} _.

(** The program's state: [bot.wheels] (guild id to the cached list), the
    [wheels] table of the database (guild id to the stored JSON array, kept
    as the list of dictionaries that [json.dumps] wrote and [json.loads]
    gives back) and the stream of raw draws the [random] module will make. *)
Record World (F : Type) := mkWorld {
  wheels : gmap Z (list (WheelSection F));
  database : gmap Z (list (SectionDict F));
  rng : nat -> Z
}.
Arguments mkWorld {F} _ _ _.
Arguments wheels {F} _.
Arguments database {F} _.
Arguments rng {F} _.

(** What a command handler tells the user.  The failure replies carry the
    names the specification gives them; [Unhandled] is an exception that
    leaves the handler. *)
Inductive Response (F : Type) :=
| WheelCreated
| SectionAdded (new_section : WheelSection F) (new_total : F)
| SectionRemoved (removed : WheelSection F) (remaining : nat) (new_total : F)
| SectionEdited (edited : WheelSection F) (new_total : F)
| SpinResult (winner : string) (winner_section : WheelSection F)
| InvalidPercentage
| DuplicateName
| PercentageBudgetExceeded (current_total : F)
| SectionNotFound
| EmptyWheel
| IncompleteWheel (total_percentage : F)
| Unhandled.
Arguments WheelCreated {F}.
Arguments SectionAdded {F} _ _.
Arguments SectionRemoved {F} _ _ _.
Arguments SectionEdited {F} _ _.
Arguments SpinResult {F} _ _.
Arguments InvalidPercentage {F}.
Arguments DuplicateName {F}.
Arguments PercentageBudgetExceeded {F} _.
Arguments SectionNotFound {F}.
Arguments EmptyWheel {F}.
Arguments IncompleteWheel {F} _.
Arguments Unhandled {F}.

(** ** The state monad *)

Definition M (F A : Type) : Type := World F -> A * World F.

Definition ret {F A} (a : A) : M F A := fun w => (a, w).

Definition bind {F A B} (m : M F A) (k : A -> M F B) : M F B :=
  fun w => let '(a, w') := m w in k a w'.

Declare Scope wheel_scope.
Delimit Scope wheel_scope with wheel.
Notation "x <- m ;; k" := (bind m (fun x => k))
  (at level 63, m at next level, right associativity) : wheel_scope.
Open Scope wheel_scope.

(** [random.randint(lo, hi)]: the next raw draw, brought into [lo..hi]. *)
Definition randint {F} (lo hi : Z) : M F Z :=
  fun w =>
    (lo + rng w O mod (hi - lo + 1),
     mkWorld (wheels w) (database w) (fun n => rng w (S n))).

Fixpoint mapM {F A B} (f : A -> M F B) (l : list A) : M F (list B) :=
  match l with
  | [] => ret []
  | a :: l' => b <- f a ;; bs <- mapM f l' ;; ret (b :: bs)
  end.

(** ** Library functions the handlers rely on

    [str_lower] is [str.lower] as [add_section], [remove_section] and
    [edit_section] apply it to section names.  [pillow_draws name color]
    says that Pillow's calls for one section return instead of raising:
    [draw.pieslice] with the section's colour as [fill], which raises
    [ValueError] when [ImageColor.getrgb] does not know the colour, and the
    [draw.textbbox], [draw.rectangle] and [draw.text] calls for the label
    that starts with the section's name.  No law is assumed of either. *)
Class Library := {
  str_lower : string -> string;
  pillow_draws : string -> string -> bool
}.

Definition is_lower_hex_digit (c : ascii) : bool :=
  between 48 57 c || between 97 102 c.

Fixpoint string_forallb (p : ascii -> bool) (s : string) : bool :=
  match s with
  | EmptyString => true
  | String c r => p c && string_forallb p r
  end.

(** What [$] at the end of a pattern lets through: one final line feed. *)
Fixpoint without_final_newline (s : string) : string :=
  match s with
  | EmptyString => EmptyString
  | String c EmptyString => if Ascii.eqb c (chr 10) then EmptyString else s
  | String c r => String c (without_final_newline r)
  end.

(** [ImageColor.getrgb] on a string that starts with [#]: the string is
    lower-cased and has to match one of [#[a-f0-9]{3}$], [#[a-f0-9]{4}$],
    [#[a-f0-9]{6}$], [#[a-f0-9]{8}$].  Colour names and the [rgb(...)] and
    [hsl(...)] notations, which do not start with [#], are left out. *)
Definition getrgb_hash (color : string) : bool :=
  match lower color with
  | String c r =>
      let digits := without_final_newline r in
      Ascii.eqb c "#" && string_forallb is_lower_hex_digit digits
      && bool_decide (String.length digits ∈ [3; 4; 6; 8]%nat)
  | EmptyString => false
  end.

(** The library on 7-bit ASCII names and colours that start with [#], with
    a font that has the glyphs of the names. *)
#[export] Instance ascii_library : Library :=
  {| str_lower := lower; pillow_draws := fun _ color => getrgb_hash color |}.

Section Wheel.
Context {F : Type} `{Arith F} {lib : Library}.

(** ** WheelSection *)

Definition _parse_color (color_in : string) : M F string :=
  let color := strip (lower color_in) in
  match color_map !! color with
  | Some hex => ret hex
  | None =>
      let fallback :=
        n <- randint 0 16777215 ;; ret (String "#" (format_06X n)) in
      if startswith_hash color && (String.length color =? 7)%nat then
        match int_base16 (slice_from_1 color) with
        | Some _ => ret (upper color)
        | None => fallback
        end
      else fallback
  end.

(** [WheelSection.__init__] *)
Definition WheelSection_init (nm : string) (pct : F) (col : string)
  : M F (WheelSection F) :=
  c <- _parse_color col ;; ret (mkSection nm pct c).

Definition to_dict (s : WheelSection F) : SectionDict F :=
  mkDict (name s) (percentage s) (color s).

Definition from_dict (data : SectionDict F) : M F (WheelSection F) :=
  WheelSection_init (dict_name data) (dict_percentage data) (dict_color data).

(** ** WheelDatabase *)

Definition save_wheel (guild_id : Z) (sections : list (WheelSection F))
  : M F unit :=
  fun w =>
    (tt, mkWorld (wheels w)
                 (<[guild_id := to_dict <$> sections]> (database w))
                 (rng w)).

Definition load_wheel (guild_id : Z) : M F (list (WheelSection F)) :=
  fun w =>
    match database w !! guild_id with
    | Some sections_data => mapM from_dict sections_data w
    | None => ([], w)
    end.

(** ** ChanceWheelBot *)

Definition get_wheel_sections (guild_id : Z) : M F (list (WheelSection F)) :=
  fun w =>
    match wheels w !! guild_id with
    | Some sections => (sections, w)
    | None =>
        let '(sections, w') := load_wheel guild_id w in
        (sections,
         mkWorld (<[guild_id := sections]> (wheels w')) (database w') (rng w'))
    end.

Definition save_wheel_sections (guild_id : Z) (sections : list (WheelSection F))
  : M F unit :=
  fun w =>
    save_wheel guild_id sections
      (mkWorld (<[guild_id := sections]> (wheels w)) (database w) (rng w)).

(** [sum(section.percentage for section in sections)]: the percentages
    added to 0, one after the other in list order. *)
Definition calculate_total_percentage (sections : list (WheelSection F)) : F :=
  fold_left fadd (percentage <$> sections) (fnum 0).

(** ** Command handlers *)

(** [section.name.lower() == name.lower()] *)
Definition same_name (nm : string) (s : WheelSection F) : Prop :=
  str_lower (name s) = str_lower nm.

#[export] Instance same_name_dec nm s : Decision (same_name nm s).
Proof. unfold same_name. apply _. Defined.

(** The [for ... break] search of [remove_section] and [edit_section]: the
    first section with that name, and where it sits in the list. *)
Definition find_section (nm : string) (sections : list (WheelSection F))
  : option (nat * WheelSection F) :=
  list_find (same_name nm) sections.

(** [/createwheel] *)
Definition create_wheel (guild_id : Z) : M F (Response F) :=
  _ <- save_wheel_sections guild_id [] ;;
  ret WheelCreated.

(** [/addsection] *)
Definition add_section (guild_id : Z) (nm : string) (pct : F) (col : string)
  : M F (Response F) :=
  sections <- get_wheel_sections guild_id ;;
  if fle pct (fnum 0) || flt (fnum 100) pct then ret InvalidPercentage
  else if bool_decide (Exists (same_name nm) sections) then ret DuplicateName
  else
    let current_total := calculate_total_percentage sections in
    if flt (fnum 100) (fadd current_total pct) then
      ret (PercentageBudgetExceeded current_total)
    else
      new_section <- WheelSection_init nm pct col ;;
      let sections := (sections ++ [new_section])%list in
      _ <- save_wheel_sections guild_id sections ;;
      ret (SectionAdded new_section (calculate_total_percentage sections)).

(** [/removesection]: [sections.remove(section_to_remove)] takes out the
    found object, which sits at the index where the search stopped. *)
Definition remove_section (guild_id : Z) (nm : string) : M F (Response F) :=
  sections <- get_wheel_sections guild_id ;;
  match find_section nm sections with
  | None => ret SectionNotFound
  | Some (i, section_to_remove) =>
      let sections := delete i sections in
      _ <- save_wheel_sections guild_id sections ;;
      ret (SectionRemoved section_to_remove (List.length sections)
                          (calculate_total_percentage sections))
  end.

(** [/editsection]: the found object is updated in place, first its
    percentage, then its colour. *)
Definition edit_section (guild_id : Z) (nm : string) (new_percentage : F)
    (new_color : string) : M F (Response F) :=
  sections <- get_wheel_sections guild_id ;;
  match find_section nm sections with
  | None => ret SectionNotFound
  | Some (i, section_to_edit) =>
      if fle new_percentage (fnum 0) || flt (fnum 100) new_percentage then
        ret InvalidPercentage
      else
        let current_total :=
          fsub (calculate_total_percentage sections)
               (percentage section_to_edit) in
        if flt (fnum 100) (fadd current_total new_percentage) then
          ret (PercentageBudgetExceeded current_total)
        else
          c <- _parse_color new_color ;;
          let edited := mkSection (name section_to_edit) new_percentage c in
          let sections := <[i := edited]> sections in
          _ <- save_wheel_sections guild_id sections ;;
          ret (SectionEdited edited (calculate_total_percentage sections))
  end.

(** The selection loop of [spin_wheel]: [current_sum] grows section by
    section and the first section with [rand_num <= current_sum] gives the
    winner's name; [None] when the loop ends without a [break]. *)
Fixpoint spin_loop (rand_num current_sum : F) (sections : list (WheelSection F))
  : option string :=
  match sections with
  | [] => None
  | s :: rest =>
      let current_sum := fadd current_sum (percentage s) in
      if fle rand_num current_sum then Some (name s)
      else spin_loop rand_num current_sum rest
  end.

(** [if not winner: winner = sections[0].name]: [None] and the empty string
    are both false in Python. *)
Definition spin_winner (rand_num : F) (sections : list (WheelSection F))
  : string :=
  let first_name :=
    match sections with
    | s :: _ => name s
    | [] => EmptyString
    end in
  match spin_loop rand_num (fnum 0) sections with
  | Some winner => if String.eqb winner EmptyString then first_name else winner
  | None => first_name
  end.

(** [next(s for s in sections if s.name == winner)] *)
Definition winner_lookup (winner : string) (sections : list (WheelSection F))
  : option (nat * WheelSection F) :=
  list_find (fun s => name s = winner) sections.

(** Pillow draws the slice and the label of the section. *)
Definition drawn (s : WheelSection F) : bool :=
  pillow_draws (name s) (color s).

(** [create_wheel_image] returns, for a list that is not empty: every
    section of the loop is drawn.  What is drawn around the loop (border,
    hub, pointer) has constant arguments. *)
Definition image_drawn (sections : list (WheelSection F)) : bool :=
  forallb drawn sections.

(** [/spin].  [rand_num] is what [random.uniform(0, total_percentage)]
    returned for this call.  The picture is drawn before the reply is put
    together.  An exception of the drawing or of the final [next] ends the
    command ([Unhandled]); the interaction was deferred by then, so the
    error handler sends nothing. *)
Definition spin_wheel (guild_id : Z) (rand_num : F) : M F (Response F) :=
  sections <- get_wheel_sections guild_id ;;
  match sections with
  | [] => ret EmptyWheel
  | _ =>
      let total_percentage := calculate_total_percentage sections in
      if flt total_percentage (fnum 100) then
        ret (IncompleteWheel total_percentage)
      else
        let winner := spin_winner rand_num sections in
        if image_drawn sections then
          match winner_lookup winner sections with
          | Some (_, winner_section) => ret (SpinResult winner winner_section)
          | None => ret Unhandled
          end
        else ret Unhandled
  end.

(** ** WheelRenderer: the pie slices *)

(** One [draw.pieslice] call of [_draw_pie_slice]. *)
Record PieSlice := mkSlice {
  start_angle : F;
  end_angle : F;
  fill_color : string;
  outline_color : string;
  outline_width : Z
}.

Definition _draw_pie_slice (start_angle end_angle : F)
    (fill_color outline_color : string) (outline_width : Z) : PieSlice :=
  mkSlice start_angle end_angle fill_color outline_color outline_width.

(** [(section.percentage / 100) * 360] *)
Definition section_angle (s : WheelSection F) : F :=
  fmul (fdiv (percentage s) (fnum 100)) (fnum 360).

(** [winner and section.name == winner] *)
Definition is_winner (winner : option string) (s : WheelSection F) : bool :=
  match winner with
  | Some w => negb (String.eqb w EmptyString) && String.eqb (name s) w
  | None => false
  end.

(** The [for section in sections] loop of [create_wheel_image], as the
    slices it draws. *)
Fixpoint draw_sections (winner : option string) (current_angle : F)
    (sections : list (WheelSection F)) : list PieSlice :=
  match sections with
  | [] => []
  | s :: rest =>
      let outline_color := if is_winner winner s then "red" else "black" in
      let outline_width := if is_winner winner s then 4 else 2 in
      _draw_pie_slice current_angle (fadd current_angle (section_angle s))
                      (color s) outline_color outline_width
      :: draw_sections winner (fadd current_angle (section_angle s)) rest
  end.

(** [create_wheel_image], reduced to its [_draw_pie_slice] calls (border,
    labels, hub and pointer are left out). *)
Definition create_wheel_image (sections : list (WheelSection F))
    (winner : option string) : list PieSlice :=
  draw_sections winner (fnum 0) sections.

(** ** Runs of the bot *)

(** The mutating slash commands a guild member can issue. *)
Inductive Command :=
| CreateWheel (guild_id : Z)
| AddSection (guild_id : Z) (nm : string) (pct : F) (col : string)
| RemoveSection (guild_id : Z) (nm : string)
| EditSection (guild_id : Z) (nm : string) (new_percentage : F)
    (new_color : string).

Definition run_command (c : Command) : M F (Response F) :=
  match c with
  | CreateWheel g => create_wheel g
  | AddSection g nm pct col => add_section g nm pct col
  | RemoveSection g nm => remove_section g nm
  | EditSection g nm pct col => edit_section g nm pct col
  end.

(** The world after the commands of [cs], in order. *)
Definition run_commands (cs : list Command) (w : World F) : World F :=
  fold_left (fun w c => snd (run_command c w)) cs w.

(** A freshly started bot on a new database. *)
Definition fresh_world (draws : nat -> Z) : World F := mkWorld ∅ ∅ draws.

(** The section list a handler sees for a guild. *)
Definition current_sections (guild_id : Z) (w : World F)
  : list (WheelSection F) :=
  fst (get_wheel_sections guild_id w).

End Wheel.

Arguments Command F : clear implicits.
Arguments PieSlice F : clear implicits.

(** ** Shapes of colour strings *)

Definition is_hex_digit (c : ascii) : bool :=
  between 48 57 c || between 97 102 c || between 65 70 c.

Definition is_upper_hex_digit (c : ascii) : bool :=
  between 48 57 c || between 65 70 c.

(** ['#'] followed by exactly six characters accepted by [digit]. *)
Definition hash_and_six (digit : ascii -> bool) (s : string) : bool :=
  match s with
  | String c r =>
      Ascii.eqb c "#" && (String.length r =? 6)%nat && string_forallb digit r
  | EmptyString => false
  end.

(** The pattern of the colour resolver's contract: [#] and six hexadecimal
    digits of either case. *)
Definition hex_pattern (s : string) : bool := hash_and_six is_hex_digit s.

(** The canonical stored form [#RRGGBB], digits in upper case. *)
Definition canonical_color (s : string) : bool :=
  hash_and_six is_upper_hex_digit s.

(** The normalisation [_parse_color] starts with. *)
Definition normalise (token : string) : string := strip (lower token).

(** Text of 7-bit ASCII characters, on which the text functions above are
    those of Python. *)
Definition is_ascii (s : string) : bool :=
  string_forallb (fun c => ord c <? 128) s.

(** ** Notions used in the statements *)

Section Notions.
Context {F : Type} `{Arith F} {lib : Library}.

(** Two worlds with the same cache and the same database (the random
    generator may have advanced). *)
Definition same_store (w w' : World F) : Prop :=
  wheels w' = wheels w /\ database w' = database w.

(** The world once the handler has fetched the guild's sections. *)
Definition fetched (g : Z) (w : World F) : World F :=
  snd (get_wheel_sections g w).

(** The three ways [add_section] turns a request down. *)
Definition add_rejected (r : Response F) : Prop :=
  r = InvalidPercentage \/ r = DuplicateName \/
  exists total, r = PercentageBudgetExceeded total.

(** The running sum of the loop after section [i], started from [acc]. *)
Definition running_sum (acc : F) (sections : list (WheelSection F)) (i : nat)
  : F :=
  fold_left fadd (percentage <$> take (S i) sections) acc.

(** The cumulative percentage up to and including section [i]. *)
Definition cumulative (sections : list (WheelSection F)) (i : nat) : F :=
  running_sum (fnum 0) sections i.

(** The angle at which the slice of section [i] starts: the spans of the
    sections before it, added up from 0 in list order. *)
Definition angle_before (sections : list (WheelSection F)) (i : nat) : F :=
  fold_left fadd (section_angle <$> take i sections) (fnum 0).

End Notions.

(** The replies to the commands of [cs], in order. *)
Fixpoint replies {F} `{Arith F} {lib : Library} (cs : list (Command F)) (w : World F)
  : list (Response F) :=
  match cs with
  | [] => []
  | c :: cs' => fst (run_command c w) :: replies cs' (snd (run_command c w))
  end.

(** The replies that report success. *)
Definition accepted {F} (r : Response F) : bool :=
  match r with
  | WheelCreated | SectionAdded _ _ | SectionRemoved _ _ _
  | SectionEdited _ _ | SpinResult _ _ => true
  | _ => false
  end.

(** What [_parse_color] takes for a hexadecimal colour: a leading [#],
    seven characters in all, and a rest that [int(_, 16)] parses. *)
Definition taken_as_hex (c : string) : bool :=
  startswith_hash c && (String.length c =? 7)%nat
  && bool_decide (is_Some (int_base16 (slice_from_1 c))).

(** ** Concrete wheels (binary64) *)

(** The binary64 number that the literal [30.0001] denotes. *)
Definition draw_30_0001 : float := 0x1.e00068db8bac7p+4%float.

(** A = 30, B = 30, C = 40. *)
Definition wheel_30_30_40 : list (WheelSection float) :=
  [mkSection "A" 30%float "#FF0000"; mkSection "B" 30%float "#0000FF";
   mkSection "C" 40%float "#00FF00"].

(** Guild 1 with A = 20 and B = 80, built through the handlers. *)
Definition wheel_20_80 : World float :=
  run_commands [AddSection 1 "A" 20%float "red";
                AddSection 1 "B" 80%float "blue"]
               (fresh_world (fun _ => 0)).

(** Guild 1 with a section "a" = 50 and an unnamed section = 50, both
    accepted by [add_section]. *)
Definition unnamed_wheel : World float :=
  run_commands [AddSection 1 "a" 50%float "red";
                AddSection 1 "" 50%float "blue"]
               (fresh_world (fun _ => 0)).

(** Three additions and one edit, in binary64: a = 2^-49, b = 2^-48,
    c = 100, then a := 1.5 * 2^-48. *)
Definition rounding_commands : list (Command float) :=
  [AddSection 1 "a" 0x1p-49%float "red";
   AddSection 1 "b" 0x1p-48%float "blue";
   AddSection 1 "c" 100%float "green";
   EditSection 1 "a" 0x1.8p-48%float "red"].

(** Guild 1 holding A = 30, B = 30, C = 40, saved through the bot. *)
Definition saved_wheel : World float :=
  snd (save_wheel_sections 1 wheel_30_30_40 (fresh_world (fun _ => 0))).

(** Guild 1 holding one section of 100 whose colour token was [#+12345],
    accepted by [add_section]. *)
Definition signed_color_wheel : World float :=
  run_commands [AddSection 1 "x" 100%float "#+12345"]
               (fresh_world (fun _ => 0)).

(** Guild 1 holding one section, "Alpha" = 50. *)
Definition alpha_wheel : World float :=
  run_commands [AddSection 1 "Alpha" 50%float "red"]
               (fresh_world (fun _ => 0)).

(** ** The rest of the command layer *)

(** [int(section.color[1:], 16)]: the embed colour that [add_section] and
    [edit_section] compute from the stored colour once the change is
    saved. *)
Definition embed_color (c : string) : option Z :=
  int_base16 (slice_from_1 c).

Section CommandLayer.
Context {F : Type} `{Arith F} {lib : Library}.

(** What [/listsections] shows: the refusal for an empty wheel, or the
    number of sections, one field per section numbered from 1, the total,
    the remaining percentage of the warning field (present when the total is
    below 100) and the preview image, drawn without a winner. *)
Inductive Listing :=
| NoSections
| SectionList (count : nat) (fields : list (nat * WheelSection F))
    (total_percentage : F) (remaining : option F)
    (preview : list (PieSlice F))
| ListingFailed.

(** [/listsections].  The preview is drawn after the fields are put
    together and before anything is sent: when the drawing raises, the
    listing is lost ([ListingFailed]) and the error handler answers with
    its "unexpected error" message. *)
Definition list_sections (guild_id : Z) : M F Listing :=
  sections <- get_wheel_sections guild_id ;;
  match sections with
  | [] => ret NoSections
  | _ =>
      let total_percentage := calculate_total_percentage sections in
      if image_drawn sections then
        ret (SectionList (List.length sections)
               (imap (fun i section => (S i, section)) sections)
               total_percentage
               (if flt total_percentage (fnum 100)
                then Some (fsub (fnum 100) total_percentage) else None)
               (create_wheel_image sections None))
      else ret ListingFailed
  end.

(** The image [spin_wheel] attaches to its result:
    [create_wheel_image(sections, winner)]; [None] when the spin is
    refused or the drawing raises. *)
Definition spin_wheel_image (guild_id : Z) (rand_num : F)
  : M F (option (list (PieSlice F))) :=
  sections <- get_wheel_sections guild_id ;;
  match sections with
  | [] => ret None
  | _ =>
      if flt (calculate_total_percentage sections) (fnum 100) then ret None
      else if image_drawn sections then
        ret (Some (create_wheel_image sections
                     (Some (spin_winner rand_num sections))))
      else ret None
  end.

(** A slice drawn with the winner's outline (red, 4 pixels). *)
Definition highlighted (slice : PieSlice F) : bool :=
  String.eqb (outline_color slice) "red" && (outline_width slice =? 4).

(** Anything a guild member can do to the bot. *)
Inductive Interaction :=
| Change (c : Command F)
| Spin (guild_id : Z) (rand_num : F)
| ListSections (guild_id : Z).

Definition run_interaction (e : Interaction) (w : World F) : World F :=
  match e with
  | Change c => snd (run_command c w)
  | Spin g rand_num => snd (spin_wheel g rand_num w)
  | ListSections g => snd (list_sections g w)
  end.

Definition run_interactions (es : list Interaction) (w : World F) : World F :=
  fold_left (fun w e => run_interaction e w) es w.

(** The guild a command is issued in. *)
Definition guild_of (c : Command F) : Z :=
  match c with
  | CreateWheel g | AddSection g _ _ _ | RemoveSection g _
  | EditSection g _ _ _ => g
  end.

(** The bot process started again on the same database file: the cache
    [bot.wheels] is empty, the table is what it was. *)
Definition restart (w : World F) (draws : nat -> Z) : World F :=
  mkWorld ∅ (database w) draws.

(** The range check of [add_section] and [edit_section], passed. *)
Definition in_range (pct : F) : bool :=
  negb (fle pct (fnum 0) || flt (fnum 100) pct).

(** A colour that [_parse_color] gives back as it is, without a draw. *)
Definition stable_color (c : string) : Prop :=
  forall w : World F, _parse_color c w = (c, w).

(** A section list as the handlers build them: names pairwise different
    once lower-cased, percentages that passed the range check, colours that
    survive a reload. *)
Definition well_formed (sections : list (WheelSection F)) : Prop :=
  NoDup ((fun s => str_lower (name s)) <$> sections) /\
  Forall (fun s => in_range (percentage s) = true /\ stable_color (color s))
         sections.

(** Cache and database agree: a cached list is well formed and is what the
    guild's row holds (or the guild has no row and the list is empty); a
    guild that is not cached has no row. *)
Definition coherent (w : World F) : Prop :=
  forall g,
    match wheels w !! g with
    | Some sections =>
        well_formed sections /\
        (database w !! g = Some (to_dict <$> sections) \/
         (database w !! g = None /\ sections = []))
    | None => database w !! g = None
    end.

End CommandLayer.

Arguments Listing F : clear implicits.
Arguments Interaction F : clear implicits.

(** ** Notions for the resolver's results *)

(** A character that [str.lower] leaves alone. *)
Definition not_upper (c : ascii) : bool := negb (between 65 90 c).

(** A string with no blank at either end. *)
Definition trimmed (s : string) : Prop := lstrip s = s /\ rstrip s = s.

Section CommandLayerNotions.
Context {F : Type} `{Arith F} {lib : Library}.

(** The guild an interaction is about. *)
Definition interaction_guild (e : Interaction F) : Z :=
  match e with
  | Change c => guild_of c
  | Spin g _ | ListSections g => g
  end.

(** The three ways [edit_section] turns a request down. *)
Definition edit_rejected (r : Response F) : Prop :=
  r = SectionNotFound \/ r = InvalidPercentage \/
  exists total, r = PercentageBudgetExceeded total.

(** A command that creates the wheel or adds a section. *)
Definition creates_or_adds (c : Command F) : bool :=
  match c with
  | CreateWheel _ | AddSection _ _ _ _ => true
  | RemoveSection _ _ | EditSection _ _ _ _ => false
  end.

(** The comparison of the budget check, [total > 100], is false of the
    list's total. *)
Definition not_over_100 (sections : list (WheelSection F)) : Prop :=
  flt (fnum 100) (calculate_total_percentage sections) = false.

End CommandLayerNotions.

(** * Properties *)

(** ** Sanity checks of the text functions *)

Example color_map_red : color_map !! "red" = Some "#FF0000".
Proof. reflexivity. Qed.

Example int_base16_plain : int_base16 "1a2b3c" = Some 1715004.
Proof. reflexivity. Qed.

Example int_base16_signed : int_base16 "+12345" = Some 74565.
Proof. reflexivity. Qed.

Example int_base16_bad : int_base16 "gggggg" = None.
Proof. reflexivity. Qed.

Example format_06X_255 : format_06X 255 = "0000FF".
Proof. reflexivity. Qed.

(** ** Facts about characters *)

Ltac each_ascii c :=
  destruct c as [[] [] [] [] [] [] [] []]; vm_compute; intros;
  try discriminate; try reflexivity; eauto.

Lemma hex_digit_not_blank c : is_hex_digit c = true -> Py_ISSPACE c = false.
Proof. each_ascii c. Qed.

Lemma hex_digit_not_str_space c : is_hex_digit c = true -> str_isspace c = false.
Proof. each_ascii c. Qed.

Lemma hex_digit_not_plus c : is_hex_digit c = true -> Ascii.eqb c "+" = false.
Proof. each_ascii c. Qed.

Lemma hex_digit_not_minus c : is_hex_digit c = true -> Ascii.eqb c "-" = false.
Proof. each_ascii c. Qed.

Lemma hex_digit_not_x c : is_hex_digit c = true -> Ascii.eqb c "x" = false.
Proof. each_ascii c. Qed.

Lemma hex_digit_not_X c : is_hex_digit c = true -> Ascii.eqb c "X" = false.
Proof. each_ascii c. Qed.

Lemma hex_digit_not_underscore c :
  is_hex_digit c = true -> Ascii.eqb c "_" = false.
Proof. each_ascii c. Qed.

Lemma hex_digit_has_value c :
  is_hex_digit c = true -> exists d, hex_digit_value c = Some d.
Proof. each_ascii c. Qed.

Lemma lower_upper_hex c :
  is_upper_hex_digit c = true -> is_hex_digit (lower_char c) = true.
Proof. each_ascii c. Qed.

Lemma upper_lower_upper_hex c :
  is_upper_hex_digit c = true -> upper_char (lower_char c) = c.
Proof. each_ascii c. Qed.

Lemma upper_hex_digit_is_upper_hex c :
  is_hex_digit c = true -> is_upper_hex_digit (upper_char c) = true.
Proof. each_ascii c. Qed.

Lemma upper_hex_digit_of_nibble d :
  0 <= d < 16 -> is_upper_hex_digit (hex_upper_digit d) = true.
Proof.
  intros Hd.
  assert (Hcases : d = 0 \/ d = 1 \/ d = 2 \/ d = 3 \/ d = 4 \/ d = 5 \/ d = 6
                   \/ d = 7 \/ d = 8 \/ d = 9 \/ d = 10 \/ d = 11 \/ d = 12
                   \/ d = 13 \/ d = 14 \/ d = 15) by lia.
  repeat (destruct Hcases as [-> | Hcases]; [reflexivity |]).
  subst d. reflexivity.
Qed.

(** ** Facts about strings *)

Lemma lower_length s : String.length (lower s) = String.length s.
Proof. induction s as [| c r IH]; simpl; congruence. Qed.

Lemma upper_length s : String.length (upper s) = String.length s.
Proof. induction s as [| c r IH]; simpl; congruence. Qed.

Lemma upper_of_hex s :
  string_forallb is_hex_digit s = true ->
  string_forallb is_upper_hex_digit (upper s) = true.
Proof.
  induction s as [| c r IH]; simpl; [done |].
  intros [Hc Hr]%andb_true_iff.
  rewrite (upper_hex_digit_is_upper_hex _ Hc), (IH Hr). reflexivity.
Qed.

Lemma lower_of_upper_hex s :
  string_forallb is_upper_hex_digit s = true ->
  string_forallb is_hex_digit (lower s) = true.
Proof.
  induction s as [| c r IH]; simpl; [done |].
  intros [Hc Hr]%andb_true_iff.
  rewrite (lower_upper_hex _ Hc), (IH Hr). reflexivity.
Qed.

Lemma upper_lower_of_upper_hex s :
  string_forallb is_upper_hex_digit s = true -> upper (lower s) = s.
Proof.
  induction s as [| c r IH]; simpl; [done |].
  intros [Hc Hr]%andb_true_iff.
  rewrite (upper_lower_upper_hex _ Hc), (IH Hr). reflexivity.
Qed.

Lemma rstrip_hex s :
  string_forallb is_hex_digit s = true -> rstrip s = s.
Proof.
  induction s as [| c r IH]; simpl; [done |].
  intros [Hc Hr]%andb_true_iff. rewrite (IH Hr).
  destruct r; [| reflexivity].
  rewrite (hex_digit_not_str_space _ Hc). reflexivity.
Qed.

Lemma strip_hash_hex r :
  string_forallb is_hex_digit r = true ->
  strip (String "#" r) = String "#" r.
Proof.
  intros Hr. unfold strip. simpl lstrip.
  change (rstrip (String "#" r))
    with (match rstrip r with
          | EmptyString => String "#" EmptyString
          | r' => String "#" r'
          end).
  rewrite (rstrip_hex _ Hr). destruct r; reflexivity.
Qed.

(** [int(_, 16)] accepts a run of hexadecimal digits. *)
Lemma scan_hex_digits s acc digits :
  string_forallb is_hex_digit s = true ->
  exists v, scan_hex false acc digits s
            = Some (v, (digits + String.length s)%nat, EmptyString).
Proof.
  revert acc digits. induction s as [| c r IH]; intros acc digits; simpl.
  - intros _. exists acc. rewrite Nat.add_0_r. reflexivity.
  - intros [Hc Hr]%andb_true_iff.
    rewrite (hex_digit_not_underscore _ Hc).
    destruct (hex_digit_has_value _ Hc) as [d ->].
    destruct (IH (16 * acc + d) (S digits) Hr) as [v ->].
    exists v. do 3 f_equal. lia.
Qed.

Lemma int_base16_six_digits s :
  String.length s = 6%nat ->
  string_forallb is_hex_digit s = true ->
  exists v, int_base16 s = Some v.
Proof.
  intros Hlen Hall.
  destruct s as [| c0 [| c1 r]]; try discriminate.
  pose proof Hall as Hall'. simpl in Hall'.
  apply andb_true_iff in Hall' as [H0 [H1 _]%andb_true_iff].
  destruct (scan_hex_digits _ 0 0%nat Hall) as [v Hscan].
  assert (Hsp : skip_spaces (String c0 (String c1 r)) = String c0 (String c1 r)).
  { simpl. rewrite (hex_digit_not_blank _ H0). reflexivity. }
  assert (Hsg : skip_sign (String c0 (String c1 r))
                = (false, String c0 (String c1 r))).
  { unfold skip_sign.
    rewrite (hex_digit_not_plus _ H0), (hex_digit_not_minus _ H0).
    reflexivity. }
  assert (H0x : skip_0x (String c0 (String c1 r)) = String c0 (String c1 r)).
  { unfold skip_0x.
    rewrite (hex_digit_not_x _ H1), (hex_digit_not_X _ H1), andb_false_r.
    reflexivity. }
  unfold int_base16. rewrite Hsp, Hsg, H0x.
  rewrite (hex_digit_not_underscore _ H0), Hscan, Hlen.
  exists v. reflexivity.
Qed.

Lemma color_map_keys :
  map_Forall (fun k _ => startswith_hash k = false) color_map.
Proof.
  apply map_Forall_to_list. vm_compute.
  repeat (constructor; [reflexivity |]). constructor.
Qed.

Lemma color_map_no_hash s :
  startswith_hash s = true -> color_map !! s = None.
Proof.
  intros Hs. destruct (color_map !! s) as [v |] eqn:Hv; [| reflexivity].
  pose proof (color_map_keys s v Hv) as Hk. simpl in Hk. congruence.
Qed.

(** ** The random fallback is well formed *)

Lemma append_cons c (r b : string) : String c r ++ b = String c (r ++ b).
Proof. reflexivity. Qed.

Lemma append_length (a b : string) :
  String.length (a ++ b) = (String.length a + String.length b)%nat.
Proof.
  induction a as [| c r IH]; [reflexivity |].
  rewrite append_cons. simpl. congruence.
Qed.

Lemma string_forallb_append p (a b : string) :
  string_forallb p (a ++ b) = string_forallb p a && string_forallb p b.
Proof.
  induction a as [| c r IH]; [reflexivity |].
  rewrite append_cons. simpl. rewrite IH, andb_assoc. reflexivity.
Qed.

Lemma zeros_length k : String.length (zeros k) = k.
Proof. induction k; simpl; congruence. Qed.

Lemma zeros_upper_hex k : string_forallb is_upper_hex_digit (zeros k) = true.
Proof. induction k; simpl; [reflexivity | assumption]. Qed.

Lemma hex_upper_aux_chars fuel n acc :
  0 <= n ->
  string_forallb is_upper_hex_digit acc = true ->
  string_forallb is_upper_hex_digit (hex_upper_aux fuel n acc) = true.
Proof.
  revert n acc. induction fuel as [| fuel IH]; intros n acc Hn Hacc; simpl.
  - assumption.
  - assert (Hd : is_upper_hex_digit (hex_upper_digit (n mod 16)) = true).
    { apply upper_hex_digit_of_nibble. apply Z.mod_pos_bound. lia. }
    destruct (n <? 16).
    + simpl. rewrite Hd. assumption.
    + apply IH.
      * apply Z.div_pos; lia.
      * simpl. rewrite Hd. assumption.
Qed.

Lemma hex_upper_aux_length fuel n acc k :
  0 <= n < 16 ^ Z.of_nat (S k) ->
  (String.length (hex_upper_aux fuel n acc) <= S k + String.length acc)%nat.
Proof.
  revert n acc k. induction fuel as [| fuel IH]; intros n acc k Hn; simpl.
  - lia.
  - destruct (n <? 16) eqn:Hlt; simpl; [lia |].
    apply Z.ltb_ge in Hlt.
    destruct k as [| k].
    + change (16 ^ Z.of_nat 1) with 16 in Hn. lia.
    + assert (Hdiv : 0 <= n / 16 < 16 ^ Z.of_nat (S k)).
      { split; [apply Z.div_pos; lia |].
        apply Z.div_lt_upper_bound; [lia |].
        rewrite <- Z.pow_succ_r by lia.
        rewrite <- Nat2Z.inj_succ. lia. }
      specialize (IH (n / 16)
                     (String (hex_upper_digit (n mod 16)) acc) k Hdiv).
      simpl in IH. lia.
Qed.

Lemma format_06X_shape n :
  0 <= n <= 16777215 ->
  String.length (format_06X n) = 6%nat /\
  string_forallb is_upper_hex_digit (format_06X n) = true.
Proof.
  intros Hn. unfold format_06X.
  replace (n <? 0) with false by (symmetry; apply Z.ltb_ge; lia).
  unfold zfill, format_X.
  set (digits := hex_upper_aux _ n EmptyString).
  assert (Hlen : (String.length digits <= 6)%nat).
  { assert (Hb : 0 <= n < 16 ^ Z.of_nat 6)
      by (change (16 ^ Z.of_nat 6) with 16777216; lia).
    pose proof (hex_upper_aux_length (S (Z.to_nat (Z.log2 n))) n
                  EmptyString 5 Hb) as Hl.
    cbn [String.length] in Hl. fold digits in Hl. lia. }
  split.
  - rewrite append_length, zeros_length. lia.
  - rewrite string_forallb_append, zeros_upper_hex. simpl.
    apply hex_upper_aux_chars; [lia | reflexivity].
Qed.

Section ColorResolver.
Context {F : Type} `{Arith F} {lib : Library}.

(** The random branch: six upper-case hexadecimal digits after the [#],
    whatever the generator draws. *)
Lemma random_color_canonical (w : World F) :
  canonical_color
    (fst ((n <- randint 0 16777215 ;; ret (String "#" (format_06X n))) w))
  = true.
Proof.
  unfold bind, randint, ret. simpl.
  assert (Hn : 0 <= 0 + rng w 0%nat mod (16777215 - 0 + 1) <= 16777215).
  { pose proof (Z.mod_pos_bound (rng w 0%nat) (16777215 - 0 + 1)). lia. }
  destruct (format_06X_shape _ Hn) as [Hlen Hall].
  unfold canonical_color, hash_and_six.
  rewrite Hlen, Hall. reflexivity.
Qed.

(** A normalised token of the shape [#] + six hexadecimal digits comes back
    upper-cased, without a draw. *)
Lemma parse_color_hex_pattern (token : string) (w : World F) :
  hex_pattern (normalise token) = true ->
  _parse_color token w = (upper (normalise token), w).
Proof.
  unfold hex_pattern, hash_and_six, _parse_color, normalise.
  destruct (strip (lower token)) as [| c r] eqn:Hc; [discriminate |].
  intros [[Hh Hlen%Nat.eqb_eq]%andb_true_iff Hall]%andb_true_iff.
  rewrite color_map_no_hash by exact Hh.
  cbn [startswith_hash String.length slice_from_1].
  rewrite Hh, Hlen. cbn [andb Nat.eqb].
  destruct (int_base16_six_digits r Hlen Hall) as [v ->].
  reflexivity.
Qed.

(** A canonical colour is a fixed point of the resolver. *)
Lemma parse_color_canonical (c : string) (w : World F) :
  canonical_color c = true -> _parse_color c w = (c, w).
Proof.
  unfold canonical_color, hash_and_six.
  destruct c as [| h r]; [discriminate |].
  intros [[Hh Hlen%Nat.eqb_eq]%andb_true_iff Hall]%andb_true_iff.
  apply Ascii.eqb_eq in Hh. subst h.
  assert (Hnorm : normalise (String "#" r) = String "#" (lower r)).
  { unfold normalise. change (lower (String "#" r)) with (String "#" (lower r)).
    apply strip_hash_hex, lower_of_upper_hex, Hall. }
  rewrite parse_color_hex_pattern.
  - rewrite Hnorm. change (upper (String "#" (lower r)))
      with (String "#" (upper (lower r))).
    rewrite (upper_lower_of_upper_hex _ Hall). reflexivity.
  - rewrite Hnorm. unfold hex_pattern, hash_and_six.
    rewrite lower_length, Hlen, (lower_of_upper_hex _ Hall). reflexivity.
Qed.

(** The resolver changes neither the cache nor the database. *)
Lemma parse_color_store (token : string) (w : World F) :
  wheels (snd (_parse_color token w)) = wheels w /\
  database (snd (_parse_color token w)) = database w.
Proof.
  unfold _parse_color.
  destruct (color_map !! _); [done |].
  destruct (_ && _); [destruct (int_base16 _) |]; done.
Qed.

End ColorResolver.

(** ** The store *)

Section Store.
Context {F : Type} `{Arith F} {lib : Library}.

Lemma same_store_refl (w : World F) : same_store w w.
Proof. split; reflexivity. Qed.

Lemma same_store_trans (w1 w2 w3 : World F) :
  same_store w1 w2 -> same_store w2 w3 -> same_store w1 w3.
Proof. intros [? ?] [? ?]. split; congruence. Qed.

Lemma from_dict_store d (w : World F) : same_store w (snd (from_dict d w)).
Proof.
  unfold from_dict, WheelSection_init, bind, ret.
  pose proof (parse_color_store (dict_color d) w) as Hs.
  destruct (_parse_color (dict_color d) w) as [c w']. exact Hs.
Qed.

Lemma mapM_from_dict_store ds (w : World F) :
  same_store w (snd (mapM from_dict ds w)).
Proof.
  revert w. induction ds as [| d ds IH]; intros w; simpl.
  - apply same_store_refl.
  - unfold bind at 1.
    pose proof (from_dict_store d w) as Hd.
    destruct (from_dict d w) as [s w1]. simpl in Hd.
    unfold bind at 1.
    pose proof (IH w1) as Hds.
    destruct (mapM from_dict ds w1) as [ss w2]. simpl in Hds |- *.
    eapply same_store_trans; eassumption.
Qed.

Lemma load_wheel_store g (w : World F) : same_store w (snd (load_wheel g w)).
Proof.
  unfold load_wheel. destruct (database w !! g).
  - apply mapM_from_dict_store.
  - apply same_store_refl.
Qed.

(** Reading dictionaries with canonical colours gives back the sections
    they were written from, and draws nothing. *)
Lemma mapM_from_dict_to_dict (sections : list (WheelSection F)) (w : World F) :
  Forall (fun s => canonical_color (color s) = true) sections ->
  mapM from_dict (to_dict <$> sections) w = (sections, w).
Proof.
  induction 1 as [| s ss Hs _ IH]; [reflexivity |].
  cbn [fmap list_fmap mapM]. unfold bind at 1.
  unfold from_dict at 1, WheelSection_init, bind at 1, to_dict at 1. simpl.
  rewrite (parse_color_canonical _ w Hs). unfold ret at 1.
  unfold bind. fold (@fmap list _ _ _ to_dict ss). rewrite IH.
  destruct s; reflexivity.
Qed.

(** What [get_wheel_sections] leaves behind: the database as it was, the
    guild's list in the cache, every other guild's cache entry as it was. *)
Lemma get_wheel_sections_spec g (w : World F) :
  let '(sections, w') := get_wheel_sections g w in
  database w' = database w /\
  wheels w' !! g = Some sections /\
  (forall g', g' <> g -> wheels w' !! g' = wheels w !! g') /\
  (forall l, wheels w !! g = Some l -> sections = l /\ w' = w).
Proof.
  unfold get_wheel_sections.
  destruct (wheels w !! g) as [l |] eqn:Hc.
  - split; [reflexivity |]. split; [exact Hc |].
    split; [reflexivity |]. intros l' Hl'. split; congruence.
  - pose proof (load_wheel_store g w) as [Hw Hd].
    destruct (load_wheel g w) as [sections w1]. simpl in Hw, Hd. simpl.
    split; [exact Hd |]. split; [apply lookup_insert_eq |].
    split; [| intros l Hl; discriminate].
    intros g' Hg'. rewrite lookup_insert_ne by done. rewrite Hw. done.
Qed.

(** A second read returns the same list and changes nothing. *)
Lemma get_wheel_sections_again g (w : World F) :
  get_wheel_sections g (snd (get_wheel_sections g w))
  = (fst (get_wheel_sections g w), snd (get_wheel_sections g w)).
Proof.
  pose proof (get_wheel_sections_spec g w) as Hs.
  destruct (get_wheel_sections g w) as [sections w'].
  destruct Hs as (_ & Hc & _ & _). simpl.
  unfold get_wheel_sections. rewrite Hc. reflexivity.
Qed.

Lemma current_sections_after_save g sections (w : World F) :
  current_sections g (snd (save_wheel_sections g sections w)) = sections.
Proof.
  unfold current_sections, save_wheel_sections, save_wheel, get_wheel_sections.
  simpl. rewrite lookup_insert_eq. reflexivity.
Qed.

Lemma database_after_save g sections (w : World F) :
  database (snd (save_wheel_sections g sections w))
  = <[g := to_dict <$> sections]> (database w).
Proof. reflexivity. Qed.

End Store.

(** ** The handlers, step by step *)

Section Handlers.
Context {F : Type} `{Arith F} {lib : Library}.

Lemma get_wheel_sections_eq g (w : World F) :
  get_wheel_sections g w = (current_sections g w, fetched g w).
Proof.
  unfold current_sections, fetched.
  destruct (get_wheel_sections g w); reflexivity.
Qed.

Lemma fetched_database g (w : World F) : database (fetched g w) = database w.
Proof.
  unfold fetched. pose proof (get_wheel_sections_spec g w) as Hs.
  destruct (get_wheel_sections g w). simpl. apply Hs.
Qed.

Lemma fetched_current g (w : World F) :
  current_sections g (fetched g w) = current_sections g w.
Proof.
  unfold current_sections at 1, fetched.
  rewrite get_wheel_sections_again. reflexivity.
Qed.

Lemma fetched_other g g' (w : World F) :
  g' <> g -> wheels (fetched g w) !! g' = wheels w !! g'.
Proof.
  unfold fetched. pose proof (get_wheel_sections_spec g w) as Hs.
  destruct (get_wheel_sections g w). simpl. intros Hg. apply Hs, Hg.
Qed.

Lemma add_section_eq g nm pct col (w : World F) :
  add_section g nm pct col w =
  let sections := current_sections g w in
  if fle pct (fnum 0) || flt (fnum 100) pct then
    (InvalidPercentage, fetched g w)
  else if bool_decide (Exists (same_name nm) sections) then
    (DuplicateName, fetched g w)
  else if flt (fnum 100) (fadd (calculate_total_percentage sections) pct) then
    (PercentageBudgetExceeded (calculate_total_percentage sections),
     fetched g w)
  else
    let '(new_section, w2) := WheelSection_init nm pct col (fetched g w) in
    (SectionAdded new_section
       (calculate_total_percentage (sections ++ [new_section])%list),
     snd (save_wheel_sections g (sections ++ [new_section])%list w2)).
Proof.
  unfold add_section, bind at 1. rewrite get_wheel_sections_eq. cbv zeta.
  destruct (_ || _); [reflexivity |].
  destruct (bool_decide _); [reflexivity |].
  destruct (flt _ _); [reflexivity |].
  unfold bind, ret.
  destruct (WheelSection_init nm pct col (fetched g w)) as [s w2].
  destruct (save_wheel_sections g _ w2). reflexivity.
Qed.

Lemma remove_section_eq g nm (w : World F) :
  remove_section g nm w =
  let sections := current_sections g w in
  match find_section nm sections with
  | None => (SectionNotFound, fetched g w)
  | Some (i, s) =>
      (SectionRemoved s (List.length (delete i sections))
         (calculate_total_percentage (delete i sections)),
       snd (save_wheel_sections g (delete i sections) (fetched g w)))
  end.
Proof.
  unfold remove_section, bind at 1. rewrite get_wheel_sections_eq. cbv zeta.
  destruct (find_section nm _) as [[i s] |]; [| reflexivity].
  unfold bind, ret. destruct (save_wheel_sections g _ _). reflexivity.
Qed.

Lemma edit_section_eq g nm pct col (w : World F) :
  edit_section g nm pct col w =
  let sections := current_sections g w in
  match find_section nm sections with
  | None => (SectionNotFound, fetched g w)
  | Some (i, s) =>
      if fle pct (fnum 0) || flt (fnum 100) pct then
        (InvalidPercentage, fetched g w)
      else
        let current_total :=
          fsub (calculate_total_percentage sections) (percentage s) in
        if flt (fnum 100) (fadd current_total pct) then
          (PercentageBudgetExceeded current_total, fetched g w)
        else
          let '(c, w2) := _parse_color col (fetched g w) in
          let edited := mkSection (name s) pct c in
          (SectionEdited edited
             (calculate_total_percentage (<[i := edited]> sections)),
           snd (save_wheel_sections g (<[i := edited]> sections) w2))
  end.
Proof.
  unfold edit_section, bind at 1. rewrite get_wheel_sections_eq. cbv zeta.
  destruct (find_section nm _) as [[i s] |]; [| reflexivity].
  destruct (_ || _); [reflexivity |].
  destruct (flt _ _); [reflexivity |].
  unfold bind, ret.
  destruct (_parse_color col (fetched g w)) as [c w2].
  destruct (save_wheel_sections g _ w2). reflexivity.
Qed.

Lemma image_drawn_Forall (sections : list (WheelSection F)) :
  Forall (fun s => drawn s = true) sections
  <-> image_drawn sections = true.
Proof.
  unfold image_drawn. induction sections as [| s rest IH].
  - split; [reflexivity | constructor].
  - rewrite Forall_cons, IH. cbn [forallb]. rewrite andb_true_iff.
    reflexivity.
Qed.

Lemma image_drawn_Exists (sections : list (WheelSection F)) :
  Exists (fun s => drawn s = false) sections
  <-> image_drawn sections = false.
Proof.
  rewrite <- not_true_iff_false, <- image_drawn_Forall.
  induction sections as [| s rest IH].
  - split; [intros Hex; inversion Hex | intros Hno; destruct Hno; constructor].
  - rewrite Exists_cons, Forall_cons, IH.
    destruct (drawn s); intuition congruence.
Qed.

Lemma spin_wheel_eq g rand_num (w : World F) :
  spin_wheel g rand_num w =
  let sections := current_sections g w in
  (match sections with
   | [] => EmptyWheel
   | _ =>
       if flt (calculate_total_percentage sections) (fnum 100) then
         IncompleteWheel (calculate_total_percentage sections)
       else
         if image_drawn sections then
           match winner_lookup (spin_winner rand_num sections) sections with
           | Some (_, winner_section) =>
               SpinResult (spin_winner rand_num sections) winner_section
           | None => Unhandled
           end
         else Unhandled
   end, fetched g w).
Proof.
  unfold spin_wheel, bind at 1. rewrite get_wheel_sections_eq. cbv zeta.
  destruct (current_sections g w) as [| s rest]; [reflexivity |].
  destruct (flt _ _); [reflexivity |].
  destruct (image_drawn _); [| reflexivity].
  destruct (winner_lookup _ _) as [[i ws] |]; reflexivity.
Qed.

Lemma create_wheel_eq g (w : World F) :
  create_wheel g w = (WheelCreated, snd (save_wheel_sections g [] w)).
Proof.
  unfold create_wheel, bind, ret.
  destruct (save_wheel_sections g [] w). reflexivity.
Qed.

End Handlers.

(** ** Persistence *)

Section Persistence.
Context {F : Type} `{Arith F} {lib : Library}.

(** C7.  For every guild id and every section list whose colours are in the
    canonical form ([#] and six upper-case hexadecimal digits), [load_wheel]
    after [save_wheel] returns the same sections in the same order, each
    with the same name, percentage and colour, although [from_dict] builds
    every section anew and so runs [_parse_color] on the stored colour; the
    load draws no random number and changes nothing else. *)
Theorem save_load_roundtrip (guild_id : Z) (sections : list (WheelSection F))
    (w : World F) :
  Forall (fun s => canonical_color (color s) = true) sections ->
  load_wheel guild_id (snd (save_wheel guild_id sections w))
  = (sections, snd (save_wheel guild_id sections w)).
Proof.
  intros Hcanon. unfold load_wheel, save_wheel. simpl.
  rewrite lookup_insert_eq.
  apply mapM_from_dict_to_dict, Hcanon.
Qed.

End Persistence.

(** ** Removing a section *)

Section Removal.
Context {F : Type} `{Arith F} {lib : Library}.

Lemma find_section_Exists nm (sections : list (WheelSection F)) :
  Exists (same_name nm) sections ->
  exists i s, find_section nm sections = Some (i, s).
Proof.
  intros Hex. unfold find_section.
  destruct (list_find (same_name nm) sections) as [[i s] |] eqn:Hf; [eauto |].
  apply list_find_None in Hf. apply Exists_exists in Hex as (s & Hin & Hs).
  rewrite Forall_forall in Hf. exfalso. exact (Hf s Hin Hs).
Qed.

(** C10.  When some section of the guild's list has the given name up to
    case (the two names are equal once [str.lower] is applied to both,
    whatever [str.lower] does to them), [remove_section] takes out the first
    such section (at index [i], no earlier section matching) and nothing
    else: the list afterwards is the sections before [i] followed by the
    sections after [i], each as it was and in the same order, and that list
    is what the database holds. *)
Theorem remove_section_frame (guild_id : Z) (nm : string) (w : World F) :
  Exists (same_name nm) (current_sections guild_id w) ->
  exists i s,
    current_sections guild_id w !! i = Some s /\
    same_name nm s /\
    (forall j s', (j < i)%nat -> current_sections guild_id w !! j = Some s' ->
                  ~ same_name nm s') /\
    fst (remove_section guild_id nm w)
    = SectionRemoved s (List.length (current_sections guild_id w) - 1)
        (calculate_total_percentage
           (take i (current_sections guild_id w)
            ++ drop (S i) (current_sections guild_id w))%list) /\
    current_sections guild_id (snd (remove_section guild_id nm w))
    = (take i (current_sections guild_id w)
       ++ drop (S i) (current_sections guild_id w))%list /\
    database (snd (remove_section guild_id nm w)) !! guild_id
    = Some (to_dict <$> (take i (current_sections guild_id w)
                         ++ drop (S i) (current_sections guild_id w))%list).
Proof.
  intros Hex. destruct (find_section_Exists _ _ Hex) as (i & s & Hfind).
  pose proof Hfind as Hfind'. unfold find_section in Hfind'.
  apply list_find_Some in Hfind' as (Hi & Hs & Hfirst).
  exists i, s. rewrite remove_section_eq. cbv zeta. rewrite Hfind.
  cbn [fst snd]. rewrite <- delete_take_drop.
  split; [exact Hi |]. split; [exact Hs |].
  split; [intros j s' Hj Hs'; eapply Hfirst; eassumption |].
  split.
  - f_equal. rewrite length_delete by eauto. reflexivity.
  - split.
    + apply current_sections_after_save.
    + rewrite database_after_save. apply lookup_insert_eq.
Qed.

End Removal.

(** ** Rejected additions *)

Section Additions.
Context {F : Type} `{Arith F} {lib : Library}.

(** C4.  With a percentage in range, a name that equals an existing
    section's name once both are lower-cased (by [str.lower], whatever it
    does to the two names) is answered [DuplicateName]; and whenever
    [add_section] answers [InvalidPercentage], [DuplicateName] or
    [PercentageBudgetExceeded], the guild's section list is what it was and
    so is the whole database (and every other guild's cache entry). *)
Theorem add_section_rejection (guild_id : Z) (nm : string) (pct : F)
    (col : string) (w : World F) :
  (fle pct (fnum 0) = false -> flt (fnum 100) pct = false ->
   Exists (same_name nm) (current_sections guild_id w) ->
   fst (add_section guild_id nm pct col w) = DuplicateName) /\
  (add_rejected (fst (add_section guild_id nm pct col w)) ->
   current_sections guild_id (snd (add_section guild_id nm pct col w))
   = current_sections guild_id w /\
   database (snd (add_section guild_id nm pct col w)) = database w /\
   forall g, g <> guild_id ->
     wheels (snd (add_section guild_id nm pct col w)) !! g = wheels w !! g).
Proof.
  rewrite add_section_eq. cbv zeta. split.
  - intros Hle Hgt Hex. rewrite Hle, Hgt. cbn [orb].
    rewrite bool_decide_eq_true_2 by exact Hex. reflexivity.
  - assert (Hkept :
      current_sections guild_id (fetched guild_id w)
      = current_sections guild_id w /\
      database (fetched guild_id w) = database w /\
      forall g, g <> guild_id ->
        wheels (fetched guild_id w) !! g = wheels w !! g).
    { split; [apply fetched_current |]. split; [apply fetched_database |].
      intros g Hg. apply fetched_other, Hg. }
    destruct (_ || _); [intros _; exact Hkept |].
    destruct (bool_decide _); [intros _; exact Hkept |].
    destruct (flt _ _); [intros _; exact Hkept |].
    destruct (WheelSection_init nm pct col (fetched guild_id w)) as [s w2].
    cbn [fst]. intros [Hr | [Hr | [t Hr]]]; discriminate.
Qed.

(** Names outside ASCII.  Python has ["É".lower() == "é".lower()]; with
    any [str.lower] that does, a wheel holding a section "É" refuses an
    addition under "é" as a duplicate, and [remove_section] called with "é"
    finds a section to take out. *)
Example accented_names (guild_id : Z) (pct : F) (col : string)
    (w : World F) :
  str_lower "É" = str_lower "é" ->
  fle pct (fnum 0) = false -> flt (fnum 100) pct = false ->
  Exists (fun s => name s = "É") (current_sections guild_id w) ->
  fst (add_section guild_id "é" pct col w) = DuplicateName /\
  exists i s,
    fst (remove_section guild_id "é" w)
    = SectionRemoved s (List.length (current_sections guild_id w) - 1)
        (calculate_total_percentage
           (delete i (current_sections guild_id w))).
Proof.
  intros Hlower Hle Hgt Hex.
  assert (Hsame : Exists (same_name "é") (current_sections guild_id w)).
  { eapply Exists_impl; [exact Hex |]. intros s Hs. unfold same_name.
    rewrite Hs. exact Hlower. }
  split.
  - rewrite add_section_eq. cbv zeta. rewrite Hle, Hgt. cbn [orb].
    rewrite bool_decide_eq_true_2 by exact Hsame. reflexivity.
  - destruct (find_section_Exists _ _ Hsame) as (i & s & Hfind).
    exists i, s. rewrite remove_section_eq. cbv zeta. rewrite Hfind.
    cbn [fst]. f_equal.
    unfold find_section in Hfind. apply list_find_Some in Hfind as (Hi & _).
    rewrite length_delete by eauto. reflexivity.
Qed.

End Additions.

(** ** Refused spins *)

Section Spin.
Context {F : Type} `{Arith F} {lib : Library}.

(** C5.  [spin_wheel] answers [EmptyWheel] exactly when the guild's list is
    empty, and [IncompleteWheel] exactly when the list is not empty and its
    total is below 100, the reply then carrying that total; the handler never
    changes the list or the database, so in particular not when it refuses. *)
Theorem spin_wheel_refusals (guild_id : Z) (rand_num : F) (w : World F) :
  (fst (spin_wheel guild_id rand_num w) = EmptyWheel
   <-> current_sections guild_id w = []) /\
  (forall total,
     fst (spin_wheel guild_id rand_num w) = IncompleteWheel total
     <-> current_sections guild_id w <> [] /\
         flt (calculate_total_percentage (current_sections guild_id w))
             (fnum 100) = true /\
         total = calculate_total_percentage (current_sections guild_id w)) /\
  current_sections guild_id (snd (spin_wheel guild_id rand_num w))
  = current_sections guild_id w /\
  database (snd (spin_wheel guild_id rand_num w)) = database w.
Proof.
  rewrite spin_wheel_eq. cbv zeta. cbn [fst snd].
  rewrite fetched_current, fetched_database.
  destruct (current_sections guild_id w) as [| s rest] eqn:Hsec.
  - split; [done |]. split; [| done].
    intros total. split; [discriminate | intros [Hne _]; done].
  - set (sections := s :: rest).
    split; [| split; [| done]].
    + destruct (flt _ _); [done |].
      destruct (image_drawn _); [| done].
      destruct (winner_lookup _ _) as [[i ws] |]; done.
    + intros total. destruct (flt _ _) eqn:Hlt.
      * split; [intros [= <-]; done | intros (_ & _ & ->); done].
      * split; [| intros (_ & Hf & _); discriminate].
        destruct (image_drawn _); [| discriminate].
        destruct (winner_lookup _ _) as [[i ws] |]; discriminate.
Qed.

End Spin.

(** ** Editing within the budget *)




(** ** The weighted draw *)

Section Draw.
Context {F : Type} `{Arith F} {lib : Library}.

Lemma spin_loop_first rand_num (sections : list (WheelSection F)) :
  forall acc i s,
    sections !! i = Some s ->
    fle rand_num (running_sum acc sections i) = true ->
    (forall j, (j < i)%nat ->
               fle rand_num (running_sum acc sections j) = false) ->
    spin_loop rand_num acc sections = Some (name s).
Proof.
  induction sections as [| s0 rest IH]; intros acc i s Hi Hle Hfirst.
  - discriminate.
  - destruct i as [| i]; simpl.
    + injection Hi as ->. unfold running_sum in Hle. simpl in Hle.
      rewrite Hle. reflexivity.
    + pose proof (Hfirst 0%nat ltac:(lia)) as H0.
      unfold running_sum in H0. simpl in H0. rewrite H0.
      apply (IH _ i); [exact Hi | exact Hle |].
      intros j Hj. apply (Hfirst (S j)). lia.
Qed.

Lemma first_true_below (p : nat -> bool) (n : nat) :
  (exists i, (i < n)%nat /\ p i = true /\
             forall j, (j < i)%nat -> p j = false) \/
  (forall j, (j < n)%nat -> p j = false).
Proof.
  induction n as [| n [(i & Hi & Hpi & Hmin) | Hnone]].
  - right. intros j Hj. lia.
  - left. exists i. split; [lia |]. split; assumption.
  - destruct (p n) eqn:Hpn.
    + left. exists n. split; [lia |]. split; assumption.
    + right. intros j Hj.
      destruct (decide (j = n)) as [-> | Hjn]; [exact Hpn |].
      apply Hnone. lia.
Qed.

Lemma first_true (p : nat -> bool) (n : nat) :
  p n = true ->
  exists i, (i <= n)%nat /\ p i = true /\
            forall j, (j < i)%nat -> p j = false.
Proof.
  intros Hn. destruct (first_true_below p n) as [(i & Hi & Hpi & Hmin) | Hnone].
  - exists i. split; [lia |]. split; assumption.
  - exists n. split; [lia |]. split; assumption.
Qed.

Lemma total_is_last_cumulative (sections : list (WheelSection F)) :
  calculate_total_percentage sections
  = cumulative sections (List.length sections - 1).
Proof.
  unfold cumulative, running_sum, calculate_total_percentage.
  rewrite take_ge by lia. reflexivity.
Qed.


Lemma spin_winner_empty rand_num (sections : list (WheelSection F)) first :
  sections !! 0%nat = Some first ->
  spin_winner rand_num sections = EmptyString ->
  name first = EmptyString.
Proof.
  destruct sections as [| s0 rest]; [discriminate |].
  intros [= ->]. unfold spin_winner.
  destruct (spin_loop _ _ _) as [winner |]; [| done].
  destruct (String.eqb_spec winner EmptyString); [done | congruence].
Qed.

(** C9.  Suppose [spin_wheel] reports a winner.  If the loop stopped at a
    section whose name is the empty string, the reported name is the first
    section's name; and a section named [""] that is not first in the list
    (index [i > 0]) is never the reported section: the section reported is
    found at another index, and the reported name is not [""] unless the
    first section is itself unnamed. *)
Theorem spin_never_reports_unnamed (guild_id : Z) (rand_num : F)
    (w : World F) (winner : string) (winner_section : WheelSection F)
    (i : nat) (s : WheelSection F) :
  fst (spin_wheel guild_id rand_num w) = SpinResult winner winner_section ->
  current_sections guild_id w !! i = Some s ->
  name s = EmptyString ->
  i <> 0%nat ->
  (forall first, current_sections guild_id w !! 0%nat = Some first ->
     (spin_loop rand_num (fnum 0) (current_sections guild_id w)
      = Some EmptyString -> winner = name first) /\
     (name first <> EmptyString -> winner <> EmptyString)) /\
  exists k, winner_lookup winner (current_sections guild_id w)
            = Some (k, winner_section) /\ k <> i.
Proof.
  rewrite spin_wheel_eq. cbv zeta. cbn [fst].
  destruct (current_sections guild_id w) as [| s0 rest] eqn:Hsec;
    [discriminate |].
  set (sections := s0 :: rest).
  destruct (flt _ _); [discriminate |].
  destruct (image_drawn sections); [| discriminate].
  destruct (winner_lookup _ sections) as [[k ws] |] eqn:Hlook; [| discriminate].
  intros [= <- <-] Hi Hname Hi0. split.
  - intros first [= <-]. split.
    + intros Hloop. unfold spin_winner. fold sections. rewrite Hloop.
      reflexivity.
    + intros Hfirst Hw. apply Hfirst.
      apply (spin_winner_empty rand_num sections s0); done.
  - exists k. split; [exact Hlook |]. intros ->.
    unfold winner_lookup in Hlook.
    apply list_find_Some in Hlook as (Hk & Hwin & Hmin).
    assert (Hs : ws = s) by congruence. subst ws.
    assert (Hempty : spin_winner rand_num sections = EmptyString)
      by congruence.
    pose proof (spin_winner_empty rand_num sections s0 eq_refl Hempty) as H0.
    apply (Hmin 0%nat s0); [reflexivity | lia | congruence].
Qed.

Lemma spin_loop_name rand_num (sections : list (WheelSection F)) :
  forall acc winner,
    spin_loop rand_num acc sections = Some winner ->
    Exists (fun s => name s = winner) sections.
Proof.
  induction sections as [| s0 rest IH]; intros acc winner; simpl;
    [discriminate |].
  destruct (fle rand_num _).
  - intros [= <-]. apply Exists_cons_hd. reflexivity.
  - intros Hloop. apply Exists_cons_tl. eapply IH, Hloop.
Qed.

Lemma spin_winner_name rand_num (sections : list (WheelSection F)) :
  sections <> [] ->
  Exists (fun s => name s = spin_winner rand_num sections) sections.
Proof.
  destruct sections as [| s0 rest]; [done |]. intros _.
  unfold spin_winner.
  destruct (spin_loop _ _ _) as [winner |] eqn:Hloop.
  - destruct (String.eqb winner EmptyString).
    + apply Exists_cons_hd. reflexivity.
    + eapply spin_loop_name, Hloop.
  - apply Exists_cons_hd. reflexivity.
Qed.

(** On a non-empty list whose total is not below 100, [spin_wheel] draws
    the picture and then reports a winner.  When Pillow cannot draw some
    section (its colour is one [ImageColor.getrgb] does not know, for one)
    the drawing raises and the command ends there.  Otherwise a winner is
    reported: the reported section is in the list, it is the first one that
    bears the reported name, and the handler's final lookup never comes back
    empty. *)
Theorem spin_wheel_reports (guild_id : Z) (rand_num : F) (w : World F) :
  current_sections guild_id w <> [] ->
  flt (calculate_total_percentage (current_sections guild_id w)) (fnum 100)
  = false ->
  (Exists (fun s => drawn s = false) (current_sections guild_id w)
   -> fst (spin_wheel guild_id rand_num w) = Unhandled) /\
  (Forall (fun s => drawn s = true) (current_sections guild_id w)
   -> exists winner winner_section k,
        fst (spin_wheel guild_id rand_num w)
        = SpinResult winner winner_section /\
        winner = spin_winner rand_num (current_sections guild_id w) /\
        winner_lookup winner (current_sections guild_id w)
        = Some (k, winner_section) /\
        current_sections guild_id w !! k = Some winner_section /\
        name winner_section = winner).
Proof.
  intros Hne Hfull. rewrite spin_wheel_eq. cbv zeta. cbn [fst].
  pose proof (spin_winner_name rand_num _ Hne) as Hex.
  pose proof (image_drawn_Forall (current_sections guild_id w)) as Hdrawn.
  pose proof (image_drawn_Exists (current_sections guild_id w)) as Hraised.
  destruct (current_sections guild_id w) as [| s0 rest]; [done |].
  set (sections := s0 :: rest) in *. rewrite Hfull. split.
  - intros Hbad. apply Hraised in Hbad. rewrite Hbad. reflexivity.
  - intros Hgood. apply Hdrawn in Hgood. rewrite Hgood.
    destruct (winner_lookup _ sections) as [[k ws] |] eqn:Hlook.
    + exists (spin_winner rand_num sections), ws, k.
      unfold winner_lookup in Hlook.
      pose proof Hlook as (Hk & Hname & _)%list_find_Some.
      repeat split; try done.
    + exfalso. unfold winner_lookup in Hlook.
      apply list_find_None in Hlook.
      apply Exists_exists in Hex as (s & Hin & Hs).
      rewrite Forall_forall in Hlook. exact (Hlook s Hin Hs).
Qed.

End Draw.

(** *** The draw on concrete wheels (binary64) *)

Example spin_boundaries :
  spin_winner 30%float wheel_30_30_40 = "A" /\
  spin_winner draw_30_0001 wheel_30_30_40 = "B" /\
  spin_winner 100%float wheel_30_30_40 = "C".
Proof. vm_compute. repeat split; reflexivity. Qed.


(** C1 at the input where the handler departs from it.  The wheel is
    complete (total 100) and the draw 75 lies in [0, 100]; the first section
    whose cumulative percentage reaches 75 is the second, unnamed one
    (cumulative 50 after "a", 100 after it), yet [spin_wheel] reports "a":
    [if not winner] takes the empty name for "no winner" and falls back to
    the first section. *)
Theorem spin_unnamed_section_lost :
  current_sections 1 unnamed_wheel
  = [mkSection "a" 50%float "#FF0000"; mkSection "" 50%float "#0000FF"] /\
  calculate_total_percentage (current_sections 1 unnamed_wheel) = 100%float /\
  fle 75%float (cumulative (current_sections 1 unnamed_wheel) 0) = false /\
  fle 75%float (cumulative (current_sections 1 unnamed_wheel) 1) = true /\
  spin_loop 75%float (fnum 0) (current_sections 1 unnamed_wheel)
  = Some EmptyString /\
  fst (spin_wheel 1 75%float unnamed_wheel)
  = SpinResult "a" (mkSection "a" 50%float "#FF0000").
Proof. vm_compute. repeat split; reflexivity. Qed.

Lemma spin_wheel_reports_witness :
  exists winner winner_section k,
    fst (spin_wheel 1 draw_30_0001 saved_wheel)
    = SpinResult winner winner_section /\
    winner = spin_winner draw_30_0001 (current_sections 1 saved_wheel) /\
    winner_lookup winner (current_sections 1 saved_wheel)
    = Some (k, winner_section) /\
    current_sections 1 saved_wheel !! k = Some winner_section /\
    name winner_section = winner.
Proof.
  apply (spin_wheel_reports 1 draw_30_0001 saved_wheel).
  - change (current_sections 1 saved_wheel) with wheel_30_30_40. discriminate.
  - vm_compute. reflexivity.
  - change (current_sections 1 saved_wheel) with wheel_30_30_40.
    repeat constructor.
Defined.

(** A colour that got past the resolver and that Pillow does not know:
    the wheel is complete, and neither [/spin] nor [/listsections] gets to
    its reply. *)
Example signed_color_not_drawn :
  current_sections 1 signed_color_wheel
  = [mkSection "x" 100%float "#+12345"] /\
  fst (spin_wheel 1 50%float signed_color_wheel) = Unhandled /\
  fst (list_sections 1 signed_color_wheel) = ListingFailed.
Proof. vm_compute. repeat split; reflexivity. Qed.

Lemma spin_never_reports_unnamed_witness :
  (forall first, current_sections 1 unnamed_wheel !! 0%nat = Some first ->
     (spin_loop 75%float (fnum 0) (current_sections 1 unnamed_wheel)
      = Some EmptyString -> "a" = name first) /\
     (name first <> EmptyString -> "a" <> EmptyString)) /\
  exists k, winner_lookup "a" (current_sections 1 unnamed_wheel)
            = Some (k, mkSection "a" 50%float "#FF0000") /\ k <> 1%nat.
Proof.
  apply (spin_never_reports_unnamed 1 75%float unnamed_wheel "a"
           (mkSection "a" 50%float "#FF0000") 1%nat
           (mkSection "" 50%float "#0000FF")).
  - vm_compute. reflexivity.
  - vm_compute. reflexivity.
  - reflexivity.
  - lia.
Defined.

(** ** The percentage budget *)

(** C2 at the input where the handlers depart from it.  In binary64, on a
    fresh bot, the additions a = 2^-49, b = 2^-48, c = 100 and the edit
    a := 1.5 * 2^-48 are all accepted: the edit's check computes
    [(100 - 2^-49) + 1.5 * 2^-48], which rounds to 100.  The total of the
    stored percentages, summed as [calculate_total_percentage] sums them, is
    then 100.00000000000001 > 100.  [add_section] compares the very sum it
    stores with 100; [edit_section] compares another expression. *)
Theorem budget_exceeded_by_edit :
  forallb accepted (replies rounding_commands (fresh_world (fun _ => 0)))
  = true /\
  calculate_total_percentage
    (current_sections 1
       (run_commands rounding_commands (fresh_world (fun _ => 0))))
  = 0x1.9000000000001p+6%float /\
  fle (calculate_total_percentage
         (current_sections 1
            (run_commands rounding_commands (fresh_world (fun _ => 0)))))
      (fnum 100) = false.
Proof. vm_compute. repeat split; reflexivity. Qed.

(** ** The pie slices *)

Section Slices.
Context {F : Type} `{Arith F} {lib : Library}.

Lemma draw_sections_length winner acc (sections : list (WheelSection F)) :
  List.length (draw_sections winner acc sections) = List.length sections.
Proof.
  revert acc. induction sections as [| s rest IH]; intros acc; simpl;
    [reflexivity | rewrite IH; reflexivity].
Qed.

Lemma draw_sections_lookup winner (sections : list (WheelSection F)) :
  forall acc i s,
    sections !! i = Some s ->
    exists slice,
      draw_sections winner acc sections !! i = Some slice /\
      start_angle slice
      = fold_left fadd (section_angle <$> take i sections) acc /\
      end_angle slice = fadd (start_angle slice) (section_angle s) /\
      fill_color slice = color s.
Proof.
  induction sections as [| s0 rest IH]; intros acc i s Hi; [discriminate |].
  destruct i as [| i].
  - injection Hi as ->. eexists. split; [reflexivity |]. simpl. done.
  - destruct (IH (fadd acc (section_angle s0)) i s Hi)
      as (slice & Hslice & Hstart & Hend & Hfill).
    exists slice. split; [exact Hslice |]. simpl. done.
Qed.

End Slices.

Section ExactSlices.
Open Scope Q_scope.

Lemma fold_Qplus_acc (l : list Q) (a : Q) :
  fold_left Qplus l a == a + fold_left Qplus l 0.
Proof.
  revert a. induction l as [| x l IH]; intros a; simpl.
  - ring.
  - rewrite (IH (a + x)), (IH (0 + x)). ring.
Qed.

Lemma fold_Qplus_cons (x : Q) (l : list Q) :
  fold_left Qplus (x :: l) 0 == x + fold_left Qplus l 0.
Proof. simpl. rewrite fold_Qplus_acc. ring. Qed.

Lemma total_cons (s : WheelSection Q) (l : list (WheelSection Q)) :
  calculate_total_percentage (s :: l)
  == percentage s + calculate_total_percentage l.
Proof.
  unfold calculate_total_percentage. rewrite fmap_cons.
  apply fold_Qplus_cons.
Qed.

Lemma section_angle_exact (s : WheelSection Q) :
  section_angle s == percentage s * (18 # 5).
Proof. unfold section_angle. simpl. unfold inject_Z. field. Qed.

Lemma spans_sum_exact (sections : list (WheelSection Q)) :
  fold_left Qplus (section_angle <$> sections) 0
  == calculate_total_percentage sections * (18 # 5).
Proof.
  induction sections as [| s rest IH].
  - reflexivity.
  - rewrite fmap_cons, fold_Qplus_cons, IH, total_cons, section_angle_exact.
    ring.
Qed.

End ExactSlices.

(** C8, as amended.  For every section list the renderer draws one slice
    per section, in list order and filled with the section's colour; slice
    [i] starts at the sum of the spans of the sections before it (so the
    first starts at 0) and ends at its start plus its own span, which is
    [(percentage / 100) * 360] with the constant 100 as denominator; each
    slice starts where the previous one ended.  With exact (rational)
    percentages the spans of a list whose total is below 100 sum to less
    than 360. *)
Theorem pie_slices_layout :
  (forall (F : Type) (A : Arith F) (sections : list (WheelSection F))
          (winner : option string),
     List.length (create_wheel_image sections winner) = List.length sections /\
     forall i s, sections !! i = Some s ->
       exists slice,
         create_wheel_image sections winner !! i = Some slice /\
         start_angle slice = angle_before sections i /\
         end_angle slice = fadd (start_angle slice) (section_angle s) /\
         section_angle s = fmul (fdiv (percentage s) (fnum 100)) (fnum 360) /\
         fill_color slice = color s /\
         angle_before sections (S i) = end_angle slice) /\
  (forall sections : list (WheelSection Q),
     (calculate_total_percentage sections < 100)%Q ->
     (angle_before sections (List.length sections) < 360)%Q).
Proof.
  split.
  - intros F A sections winner. split; [apply draw_sections_length |].
    intros i s Hi. unfold create_wheel_image.
    destruct (draw_sections_lookup winner sections (fnum 0) i s Hi)
      as (slice & Hslice & Hstart & Hend & Hfill).
    exists slice. split; [exact Hslice |]. split; [exact Hstart |].
    split; [exact Hend |]. split; [reflexivity |]. split; [exact Hfill |].
    rewrite Hend, Hstart. unfold angle_before.
    rewrite (take_S_r sections i s Hi), fmap_app, fold_left_app.
    reflexivity.
  - intros sections Htotal. unfold angle_before.
    rewrite take_ge by lia. rewrite spans_sum_exact. lra.
Qed.

Lemma pie_slices_layout_witness :
  (angle_before [mkSection "A" 30%Q "#FF0000"; mkSection "B" 30%Q "#0000FF"]
                2 < 360)%Q.
Proof.
  apply (proj2 pie_slices_layout
           [mkSection "A" 30%Q "#FF0000"; mkSection "B" 30%Q "#0000FF"]).
  vm_compute. reflexivity.
Defined.

(** The last part of C8 as first stated fails in binary64: the sections
    1.0 and 98.99999999999999 total 99.99999999999999 < 100, and their
    spans (3.6 and 356.4 after rounding) add up to exactly 360.0. *)
Lemma pie_slices_binary64_counterexample :
  flt (calculate_total_percentage
         [mkSection "A" 1%float "#FF0000";
          mkSection "B" 0x1.8bfffffffffffp+6%float "#0000FF"])
      (fnum 100) = true /\
  angle_before [mkSection "A" 1%float "#FF0000";
                mkSection "B" 0x1.8bfffffffffffp+6%float "#0000FF"] 2
  = 360%float /\
  flt (angle_before [mkSection "A" 1%float "#FF0000";
                     mkSection "B" 0x1.8bfffffffffffp+6%float "#0000FF"] 2)
      (fnum 360) = false.
Proof. vm_compute. repeat split; reflexivity. Qed.

(** ** The colour resolver on tokens outside its contract *)

Section ResolverOutcome.
Context {F : Type} `{Arith F} {lib : Library}.

(** C6 at the input where the resolver departs from it.  The token
    [#+12345] is not in the colour table and is not [#] followed by six
    hexadecimal digits, yet it does not reach the random branch: it has
    seven characters, starts with [#], and [int("+12345", 16)] succeeds, so
    it comes back upper-cased, and what comes back is not a well-formed
    [#RRGGBB] colour. *)
Theorem parse_color_signed_token (w : World F) :
  color_map !! normalise "#+12345" = None /\
  hex_pattern (normalise "#+12345") = false /\
  int_base16 (slice_from_1 (normalise "#+12345")) = Some 74565 /\
  _parse_color "#+12345" w = ("#+12345", w) /\
  hex_pattern (fst (_parse_color "#+12345" w)) = false.
Proof. vm_compute. repeat split; reflexivity. Qed.

(** A token that, trimmed and lower-cased, is [#] followed by six
    hexadecimal digits comes back upper-cased, in canonical form, and
    without a random draw. *)
Theorem parse_color_accepts_hex (token : string) (w : World F) :
  hex_pattern (normalise token) = true ->
  _parse_color token w = (upper (normalise token), w) /\
  canonical_color (upper (normalise token)) = true.
Proof.
  intros Hpat. split; [apply parse_color_hex_pattern, Hpat |].
  unfold hex_pattern, hash_and_six in Hpat.
  destruct (normalise token) as [| c r]; [discriminate |].
  apply andb_true_iff in Hpat as [[Hh Hlen]%andb_true_iff Hall].
  apply Ascii.eqb_eq in Hh. subst c.
  assert (Hup : upper (String "#" r) = String "#" (upper r)) by reflexivity.
  rewrite Hup. unfold canonical_color, hash_and_six.
  rewrite upper_length, Hlen, (upper_of_hex _ Hall). reflexivity.
Qed.

End ResolverOutcome.

Example parse_color_examples :
  fst (@_parse_color float "red" (fresh_world (fun _ => 0))) = "#FF0000" /\
  fst (@_parse_color float "#1a2b3c" (fresh_world (fun _ => 0))) = "#1A2B3C" /\
  fst (@_parse_color float "notacolor" (fresh_world (fun _ => 11259375)))
  = "#ABCDEF" /\
  fst (@_parse_color float "#0x12ab" (fresh_world (fun _ => 0))) = "#0X12AB" /\
  fst (@_parse_color float "#1_2_3a" (fresh_world (fun _ => 0))) = "#1_2_3A".
Proof. vm_compute. repeat split; reflexivity. Qed.

Lemma parse_color_accepts_hex_witness :
  @_parse_color float " #1a2b3c " (fresh_world (fun _ => 0))
  = ("#1A2B3C", fresh_world (fun _ => 0)) /\
  canonical_color "#1A2B3C" = true.
Proof.
  apply (parse_color_accepts_hex " #1a2b3c " (fresh_world (fun _ => 0))).
  vm_compute. reflexivity.
Defined.

(** ** Witnesses on concrete wheels *)

Lemma save_load_roundtrip_witness :
  load_wheel 7 (snd (save_wheel 7 wheel_30_30_40 (fresh_world (fun _ => 0))))
  = (wheel_30_30_40,
     snd (save_wheel 7 wheel_30_30_40 (fresh_world (fun _ => 0)))).
Proof.
  apply (save_load_roundtrip 7 wheel_30_30_40 (fresh_world (fun _ => 0))).
  repeat constructor.
Defined.

Lemma remove_section_frame_witness :
  exists i s,
    current_sections 1 saved_wheel !! i = Some s /\
    same_name "b" s /\
    (forall j s', (j < i)%nat -> current_sections 1 saved_wheel !! j = Some s' ->
                  ~ same_name "b" s') /\
    fst (remove_section 1 "b" saved_wheel)
    = SectionRemoved s (List.length (current_sections 1 saved_wheel) - 1)
        (calculate_total_percentage
           (take i (current_sections 1 saved_wheel)
            ++ drop (S i) (current_sections 1 saved_wheel))%list) /\
    current_sections 1 (snd (remove_section 1 "b" saved_wheel))
    = (take i (current_sections 1 saved_wheel)
       ++ drop (S i) (current_sections 1 saved_wheel))%list /\
    database (snd (remove_section 1 "b" saved_wheel)) !! 1
    = Some (to_dict <$> (take i (current_sections 1 saved_wheel)
                         ++ drop (S i) (current_sections 1 saved_wheel))%list).
Proof.
  apply (remove_section_frame 1 "b" saved_wheel).
  change (current_sections 1 saved_wheel) with wheel_30_30_40.
  apply Exists_cons_tl, Exists_cons_hd. reflexivity.
Defined.

Lemma add_section_rejection_witness :
  fst (add_section 1 "ALPHA" 10%float "blue" alpha_wheel) = DuplicateName /\
  current_sections 1 (snd (add_section 1 "ALPHA" 10%float "blue" alpha_wheel))
  = current_sections 1 alpha_wheel /\
  database (snd (add_section 1 "ALPHA" 10%float "blue" alpha_wheel))
  = database alpha_wheel.
Proof.
  destruct (add_section_rejection 1 "ALPHA" 10%float "blue" alpha_wheel)
    as [Hdup Hkept].
  assert (Hreply : fst (add_section 1 "ALPHA" 10%float "blue" alpha_wheel)
                   = DuplicateName).
  { apply Hdup.
    - reflexivity.
    - reflexivity.
    - change (current_sections 1 alpha_wheel)
        with [mkSection "Alpha" 50%float "#FF0000"].
      apply Exists_cons_hd. reflexivity. }
  split; [exact Hreply |].
  destruct Hkept as (Hsections & Hdatabase & _).
  - right. left. exact Hreply.
  - split; assumption.
Defined.

(** ** Accepted additions, in any arithmetic *)

Section AcceptedAddition.
Context {F : Type} `{Arith F} {lib : Library}.


End AcceptedAddition.


(** ** Colours the resolver returns *)

Lemma lower_char_not_upper c : not_upper (lower_char c) = true.
Proof. each_ascii c. Qed.

Lemma lower_upper_char c : not_upper c = true -> lower_char (upper_char c) = c.
Proof. each_ascii c. Qed.

Lemma upper_char_digit_value c :
  hex_digit_value (upper_char c) = hex_digit_value c.
Proof. each_ascii c. Qed.

Lemma upper_char_blank c : Py_ISSPACE (upper_char c) = Py_ISSPACE c.
Proof. each_ascii c. Qed.

Lemma upper_char_underscore c :
  Ascii.eqb (upper_char c) "_" = Ascii.eqb c "_".
Proof. each_ascii c. Qed.

Lemma upper_char_plus c : Ascii.eqb (upper_char c) "+" = Ascii.eqb c "+".
Proof. each_ascii c. Qed.

Lemma upper_char_minus c : Ascii.eqb (upper_char c) "-" = Ascii.eqb c "-".
Proof. each_ascii c. Qed.

Lemma upper_char_zero c : Ascii.eqb (upper_char c) "0" = Ascii.eqb c "0".
Proof. each_ascii c. Qed.

Lemma upper_char_x c :
  Ascii.eqb (upper_char c) "x" || Ascii.eqb (upper_char c) "X"
  = Ascii.eqb c "x" || Ascii.eqb c "X".
Proof. each_ascii c. Qed.

Lemma upper_hex_digit_is_hex c :
  is_upper_hex_digit c = true -> is_hex_digit c = true.
Proof. each_ascii c. Qed.

Lemma lower_not_upper s : string_forallb not_upper (lower s) = true.
Proof.
  induction s as [| c r IH]; simpl; [reflexivity |].
  rewrite lower_char_not_upper, IH. reflexivity.
Qed.

Lemma lower_upper_id s :
  string_forallb not_upper s = true -> lower (upper s) = s.
Proof.
  induction s as [| c r IH]; simpl; [done |].
  intros [Hc Hr]%andb_true_iff.
  rewrite (lower_upper_char _ Hc), (IH Hr). reflexivity.
Qed.

Lemma lstrip_forallb p s :
  string_forallb p s = true -> string_forallb p (lstrip s) = true.
Proof.
  induction s as [| c r IH]; simpl; [done |].
  intros Hall. pose proof Hall as [Hc Hr]%andb_true_iff.
  destruct (str_isspace c); [apply IH, Hr | exact Hall].
Qed.

Lemma rstrip_forallb p s :
  string_forallb p s = true -> string_forallb p (rstrip s) = true.
Proof.
  induction s as [| c r IH]; simpl; [done |].
  intros [Hc Hr]%andb_true_iff. specialize (IH Hr).
  destruct (rstrip r) as [| d r'].
  - destruct (str_isspace c); simpl; [reflexivity | rewrite Hc; reflexivity].
  - simpl. simpl in IH. rewrite Hc, IH. reflexivity.
Qed.

Lemma rstrip_rstrip s : rstrip (rstrip s) = rstrip s.
Proof.
  induction s as [| c r IH]; [reflexivity |].
  cbn [rstrip]. destruct (rstrip r) as [| d r'] eqn:Hr.
  - destruct (str_isspace c) eqn:Hc; [reflexivity |].
    cbn [rstrip]. rewrite Hc. reflexivity.
  - cbn [rstrip]. cbn [rstrip] in IH. rewrite IH. reflexivity.
Qed.

Lemma lstrip_head s :
  lstrip s = match lstrip s with
             | String c r => if str_isspace c then EmptyString else String c r
             | EmptyString => EmptyString
             end.
Proof.
  induction s as [| c r IH]; [reflexivity |].
  cbn [lstrip]. destruct (str_isspace c) eqn:Hc; [exact IH |].
  rewrite Hc. reflexivity.
Qed.

Lemma rstrip_keeps_head c r :
  str_isspace c = false ->
  exists r', rstrip (String c r) = String c r'.
Proof.
  intros Hc. cbn [rstrip]. destruct (rstrip r) as [| d r'].
  - rewrite Hc. eauto.
  - eauto.
Qed.

Lemma strip_trimmed s : trimmed (strip s).
Proof.
  unfold trimmed, strip. split; [| apply rstrip_rstrip].
  pose proof (lstrip_head s) as Hhead.
  destruct (lstrip s) as [| c r]; [reflexivity |].
  destruct (str_isspace c) eqn:Hc; [discriminate |].
  destruct (rstrip_keeps_head c r Hc) as [r' ->].
  cbn [lstrip]. rewrite Hc. reflexivity.
Qed.

Lemma strip_of_trimmed s : trimmed s -> strip s = s.
Proof. intros [Hl Hr]. unfold strip. rewrite Hl. exact Hr. Qed.

Lemma normalise_upper_normalise token :
  normalise (upper (normalise token)) = normalise token.
Proof.
  unfold normalise at 1.
  rewrite lower_upper_id.
  - apply strip_of_trimmed, strip_trimmed.
  - unfold normalise, strip.
    apply rstrip_forallb, lstrip_forallb, lower_not_upper.
Qed.

(** [int(_, 16)] does not look at the case of its argument. *)
Lemma skip_spaces_upper s : skip_spaces (upper s) = upper (skip_spaces s).
Proof.
  induction s as [| c r IH]; [reflexivity |].
  cbn [upper skip_spaces]. rewrite upper_char_blank.
  destruct (Py_ISSPACE c); [exact IH | reflexivity].
Qed.

Lemma skip_sign_upper s :
  skip_sign (upper s) = (fst (skip_sign s), upper (snd (skip_sign s))).
Proof.
  destruct s as [| c r]; [reflexivity |].
  cbn [upper skip_sign]. rewrite upper_char_plus, upper_char_minus.
  destruct (Ascii.eqb c "+"); [reflexivity |].
  destruct (Ascii.eqb c "-"); reflexivity.
Qed.

Lemma skip_0x_upper s : skip_0x (upper s) = upper (skip_0x s).
Proof.
  destruct s as [| c0 [| c1 r]]; try reflexivity.
  cbn [upper skip_0x]. rewrite upper_char_zero, upper_char_x.
  destruct (Ascii.eqb c0 "0" && (Ascii.eqb c1 "x" || Ascii.eqb c1 "X"));
    [| reflexivity].
  destruct r as [| u r']; [reflexivity |].
  cbn [upper]. rewrite upper_char_underscore.
  destruct (Ascii.eqb u "_"); reflexivity.
Qed.

Lemma scan_hex_upper s :
  forall prev_us acc digits,
    scan_hex prev_us acc digits (upper s)
    = match scan_hex prev_us acc digits s with
      | Some (v, n, rest) => Some (v, n, upper rest)
      | None => None
      end.
Proof.
  induction s as [| c r IH]; intros prev_us acc digits.
  - cbn [upper scan_hex]. destruct prev_us; reflexivity.
  - cbn [upper scan_hex].
    rewrite upper_char_underscore, upper_char_digit_value.
    destruct (Ascii.eqb c "_").
    + destruct prev_us; [reflexivity | apply IH].
    + destruct (hex_digit_value c); [apply IH |].
      destruct prev_us; reflexivity.
Qed.

Lemma int_base16_upper s : int_base16 (upper s) = int_base16 s.
Proof.
  unfold int_base16.
  rewrite skip_spaces_upper, skip_sign_upper.
  destruct (skip_sign (skip_spaces s)) as [negative s1]. cbn [fst snd].
  rewrite skip_0x_upper.
  destruct (skip_0x s1) as [| c r] eqn:Hs; [reflexivity |].
  cbn [upper]. rewrite upper_char_underscore.
  destruct (Ascii.eqb c "_"); [reflexivity |].
  change (String (upper_char c) (upper r)) with (upper (String c r)).
  rewrite scan_hex_upper.
  destruct (scan_hex false 0 0 (String c r)) as [[[v n] rest] |];
    [| reflexivity].
  destruct (n =? 0)%nat; [reflexivity |].
  rewrite skip_spaces_upper.
  destruct (skip_spaces rest); reflexivity.
Qed.

Lemma color_map_values :
  map_Forall (fun _ v => canonical_color v = true) color_map.
Proof.
  apply map_Forall_to_list. vm_compute.
  repeat (constructor; [reflexivity |]). constructor.
Qed.

Lemma canonical_embed_color c :
  canonical_color c = true -> is_Some (embed_color c).
Proof.
  unfold canonical_color, hash_and_six, embed_color.
  destruct c as [| h r]; [discriminate |].
  intros [[_ Hlen%Nat.eqb_eq]%andb_true_iff Hall]%andb_true_iff.
  cbn [slice_from_1].
  assert (Hhex : string_forallb is_hex_digit r = true).
  { clear Hlen. induction r as [| c r IH]; [reflexivity |].
    simpl in Hall |- *. apply andb_true_iff in Hall as [Hc Hr].
    rewrite (upper_hex_digit_is_hex _ Hc), (IH Hr). reflexivity. }
  destruct (int_base16_six_digits r Hlen Hhex) as [v ->]. eauto.
Qed.

Section ResolverResults.
Context {F : Type} `{Arith F} {lib : Library}.

Lemma canonical_stable c : canonical_color c = true -> stable_color (F := F) c.
Proof. intros Hc w. apply parse_color_canonical, Hc. Qed.

(** The three branches of the resolver. *)
Lemma parse_color_branches (token : string) (w : World F) :
  match color_map !! normalise token with
  | Some hex => _parse_color token w = (hex, w)
  | None =>
      if taken_as_hex (normalise token) then
        _parse_color token w = (upper (normalise token), w)
      else canonical_color (fst (_parse_color token w)) = true
  end.
Proof.
  unfold _parse_color, taken_as_hex. fold (normalise token).
  destruct (color_map !! normalise token) as [hex |]; [reflexivity |].
  destruct (startswith_hash _ && (_ =? 7)%nat); cbn [andb].
  - destruct (int_base16 _) as [v |].
    + rewrite bool_decide_eq_true_2 by eauto. reflexivity.
    + rewrite bool_decide_eq_false_2 by (intros [? ?]; discriminate).
      apply random_color_canonical.
  - apply random_color_canonical.
Qed.

Lemma parse_color_result_cases (token : string) (w : World F) :
  canonical_color (fst (_parse_color token w)) = true \/
  (color_map !! normalise token = None /\
   taken_as_hex (normalise token) = true /\
   fst (_parse_color token w) = upper (normalise token)).
Proof.
  pose proof (parse_color_branches token w) as Hout.
  destruct (color_map !! normalise token) as [hex |] eqn:Hmap.
  - left. rewrite Hout. simpl.
    exact (color_map_values (normalise token) hex Hmap).
  - destruct (taken_as_hex (normalise token)) eqn:Htaken.
    + right. rewrite Hout. done.
    + left. exact Hout.
Qed.

Lemma parse_color_result_stable (token : string) (w : World F) :
  stable_color (F := F) (fst (_parse_color token w)).
Proof.
  destruct (parse_color_result_cases token w)
    as [Hcanon | (Hmap & Htaken & ->)].
  - apply canonical_stable, Hcanon.
  - intros w'.
    pose proof (parse_color_branches (upper (normalise token)) w') as Hout.
    rewrite normalise_upper_normalise, Hmap, Htaken in Hout. exact Hout.
Qed.

Lemma parse_color_result_embed (token : string) (w : World F) :
  is_Some (embed_color (fst (_parse_color token w))).
Proof.
  destruct (parse_color_result_cases token w)
    as [Hcanon | (Hmap & Htaken & ->)].
  - apply canonical_embed_color, Hcanon.
  - unfold taken_as_hex in Htaken.
    apply andb_true_iff in Htaken as [_ Hint%bool_decide_eq_true_1].
    unfold embed_color.
    destruct (normalise token) as [| h r]; [destruct Hint; discriminate |].
    cbn [upper slice_from_1]. rewrite int_base16_upper. exact Hint.
Qed.

(** For every token of 7-bit ASCII characters, the colour [_parse_color]
    returns has a leading [#] and seven characters, [int(colour[1:], 16)]
    succeeds on it (so building the embed after an addition or an edit does
    not raise), and the resolver maps it to itself without a random draw (so
    it is read back from the database as it was written). *)
Theorem parse_color_result (token : string) (w : World F) :
  is_ascii token = true ->
  startswith_hash (fst (_parse_color token w)) = true /\
  String.length (fst (_parse_color token w)) = 7%nat /\
  is_Some (embed_color (fst (_parse_color token w))) /\
  forall w' : World F,
    _parse_color (fst (_parse_color token w)) w'
    = (fst (_parse_color token w), w').
Proof.
  intros _. split; [| split; [| split]].
  - destruct (parse_color_result_cases token w)
      as [Hcanon | (Hmap & Htaken & ->)].
    + unfold canonical_color, hash_and_six in Hcanon.
      destruct (fst (_parse_color token w)) as [| h r]; [discriminate |].
      apply andb_true_iff in Hcanon as [[Hh _]%andb_true_iff _]. exact Hh.
    + unfold taken_as_hex in Htaken.
      apply andb_true_iff in Htaken as [[Hh _]%andb_true_iff _].
      destruct (normalise token) as [| h r]; [discriminate |].
      simpl in Hh. apply Ascii.eqb_eq in Hh. subst h. reflexivity.
  - destruct (parse_color_result_cases token w)
      as [Hcanon | (Hmap & Htaken & ->)].
    + unfold canonical_color, hash_and_six in Hcanon.
      destruct (fst (_parse_color token w)) as [| h r]; [discriminate |].
      apply andb_true_iff in Hcanon as [[_ Hlen%Nat.eqb_eq]%andb_true_iff _].
      simpl. rewrite Hlen. reflexivity.
    + unfold taken_as_hex in Htaken.
      apply andb_true_iff in Htaken as [[_ Hlen%Nat.eqb_eq]%andb_true_iff _].
      rewrite upper_length. exact Hlen.
  - apply parse_color_result_embed.
  - apply parse_color_result_stable.
Qed.

End ResolverResults.

Lemma parse_color_result_witness :
  startswith_hash
    (fst (@_parse_color float "#+12345" (fresh_world (fun _ => 0)))) = true /\
  String.length
    (fst (@_parse_color float "#+12345" (fresh_world (fun _ => 0)))) = 7%nat /\
  is_Some
    (embed_color
       (fst (@_parse_color float "#+12345" (fresh_world (fun _ => 0))))) /\
  forall w' : World float,
    _parse_color
      (fst (@_parse_color float "#+12345" (fresh_world (fun _ => 0)))) w'
    = (fst (@_parse_color float "#+12345" (fresh_world (fun _ => 0))), w').
Proof.
  apply (parse_color_result "#+12345" (fresh_world (fun _ => 0))).
  vm_compute. reflexivity.
Defined.

(** ** Well-formed wheels, kept by every interaction *)

Section Coherence.
Context {F : Type} `{Arith F} {lib : Library}.

Lemma list_sections_eq g (w : World F) :
  list_sections g w =
  (match current_sections g w with
   | [] => NoSections
   | _ =>
       if image_drawn (current_sections g w) then
         SectionList (List.length (current_sections g w))
           (imap (fun i section => (S i, section)) (current_sections g w))
           (calculate_total_percentage (current_sections g w))
           (if flt (calculate_total_percentage (current_sections g w))
                   (fnum 100)
            then Some (fsub (fnum 100)
                            (calculate_total_percentage
                               (current_sections g w)))
            else None)
           (create_wheel_image (current_sections g w) None)
       else ListingFailed
   end, fetched g w).
Proof.
  unfold list_sections, bind at 1. rewrite get_wheel_sections_eq.
  destruct (current_sections g w); [reflexivity |]. cbv zeta.
  destruct (image_drawn _); reflexivity.
Qed.

Lemma spin_wheel_image_eq g rand_num (w : World F) :
  spin_wheel_image g rand_num w =
  (match current_sections g w with
   | [] => None
   | _ =>
       if flt (calculate_total_percentage (current_sections g w)) (fnum 100)
       then None
       else if image_drawn (current_sections g w) then
         Some (create_wheel_image (current_sections g w)
                 (Some (spin_winner rand_num (current_sections g w))))
       else None
   end, fetched g w).
Proof.
  unfold spin_wheel_image, bind at 1. rewrite get_wheel_sections_eq.
  destruct (current_sections g w); [reflexivity |].
  destruct (flt _ _); [reflexivity |].
  destruct (image_drawn _); reflexivity.
Qed.

Lemma mapM_from_dict_stable (sections : list (WheelSection F)) (w : World F) :
  Forall (fun s => stable_color (F := F) (color s)) sections ->
  mapM from_dict (to_dict <$> sections) w = (sections, w).
Proof.
  induction 1 as [| s ss Hs _ IH]; [reflexivity |].
  cbn [fmap list_fmap mapM]. unfold bind at 1.
  unfold from_dict at 1, WheelSection_init, bind at 1, to_dict at 1.
  cbn [dict_name dict_percentage dict_color].
  rewrite (Hs w). unfold ret at 1.
  unfold bind. fold (@fmap list _ _ _ to_dict ss). rewrite IH.
  destruct s; reflexivity.
Qed.

Lemma well_formed_nil : well_formed (F := F) [].
Proof. split; constructor. Qed.

Lemma well_formed_add (l : list (WheelSection F)) nm pct c :
  well_formed l -> ~ Exists (same_name nm) l ->
  in_range pct = true -> stable_color (F := F) c ->
  well_formed (l ++ [mkSection nm pct c])%list.
Proof.
  intros [Hnames Hall] Hnew Hpct Hc. split.
  - rewrite fmap_app. apply NoDup_app. split; [exact Hnames |]. split.
    + intros x Hx Hx'. apply list_elem_of_singleton in Hx'. subst x.
      apply list_elem_of_fmap in Hx as (s & Hs & Hin).
      apply Hnew, Exists_exists. exists s. split; [exact Hin |].
      unfold same_name. simpl in Hs. congruence.
    + apply NoDup_singleton.
  - apply Forall_app. split; [exact Hall |]. repeat constructor; assumption.
Qed.

Lemma well_formed_delete (l : list (WheelSection F)) i :
  well_formed l -> well_formed (delete i l).
Proof.
  intros [Hnames Hall]. split; [| apply Forall_delete, Hall].
  rewrite list_fmap_delete.
  eapply sublist_NoDup; [exact Hnames | apply sublist_delete].
Qed.

Lemma well_formed_edit (l : list (WheelSection F)) i s pct c :
  well_formed l -> l !! i = Some s ->
  in_range pct = true -> stable_color (F := F) c ->
  well_formed (<[i := mkSection (name s) pct c]> l).
Proof.
  intros [Hnames Hall] Hi Hpct Hc. split.
  - rewrite list_fmap_insert. cbn [name].
    rewrite list_insert_id; [exact Hnames |].
    rewrite list_lookup_fmap, Hi. reflexivity.
  - apply Forall_insert; [exact Hall |]. split; assumption.
Qed.

Lemma coherent_fresh draws : coherent (F := F) (fresh_world draws).
Proof. intros g. reflexivity. Qed.

Lemma coherent_same_store (w w' : World F) :
  same_store w w' -> coherent w -> coherent w'.
Proof. intros [Hw Hd] Hcoh g. rewrite Hw, Hd. apply Hcoh. Qed.

Lemma coherent_current g (w : World F) :
  coherent w -> well_formed (current_sections g w).
Proof.
  intros Hcoh. specialize (Hcoh g).
  unfold current_sections, get_wheel_sections.
  destruct (wheels w !! g) as [l |].
  - apply Hcoh.
  - unfold load_wheel. rewrite Hcoh. apply well_formed_nil.
Qed.

Lemma coherent_fetched g (w : World F) : coherent w -> coherent (fetched g w).
Proof.
  intros Hcoh. pose proof (Hcoh g) as Hg.
  unfold fetched, get_wheel_sections.
  destruct (wheels w !! g) as [l |] eqn:Hc; [exact Hcoh |].
  unfold load_wheel. rewrite Hg. simpl. intros g'. simpl.
  destruct (decide (g' = g)) as [-> | Hne].
  - rewrite lookup_insert_eq. split; [apply well_formed_nil | right; done].
  - rewrite lookup_insert_ne by done. apply Hcoh.
Qed.

Lemma coherent_save g l (w : World F) :
  coherent w -> well_formed l -> coherent (snd (save_wheel_sections g l w)).
Proof.
  intros Hcoh Hl g'. unfold save_wheel_sections, save_wheel. simpl.
  destruct (decide (g' = g)) as [-> | Hne].
  - rewrite !lookup_insert_eq. split; [exact Hl | left; reflexivity].
  - rewrite !lookup_insert_ne by done. apply Hcoh.
Qed.

Lemma in_range_of_check (pct : F) :
  fle pct (fnum 0) || flt (fnum 100) pct = false -> in_range pct = true.
Proof. unfold in_range. intros ->. reflexivity. Qed.

Lemma coherent_command (c : Command F) (w : World F) :
  coherent w -> coherent (snd (run_command c w)).
Proof.
  intros Hcoh.
  pose proof (fun g => coherent_fetched g w Hcoh) as Hf.
  pose proof (fun g => coherent_current g w Hcoh) as Hcur.
  destruct c as [g | g nm pct col | g nm | g nm pct col]; cbn [run_command].
  - rewrite create_wheel_eq. apply coherent_save;
      [exact Hcoh | apply well_formed_nil].
  - rewrite add_section_eq. cbv zeta.
    destruct (fle pct (fnum 0) || flt (fnum 100) pct) eqn:Hrange;
      [apply Hf |].
    destruct (bool_decide (Exists (same_name nm) (current_sections g w)))
      eqn:Hdup; [apply Hf |].
    destruct (flt (fnum 100) (fadd _ pct)); [apply Hf |].
    unfold WheelSection_init, bind, ret.
    pose proof (parse_color_store col (fetched g w)) as Hstore.
    pose proof (parse_color_result_stable col (fetched g w)) as Hstable.
    destruct (_parse_color col (fetched g w)) as [c w2]. cbn [fst snd] in *.
    apply coherent_save.
    + eapply coherent_same_store; [exact Hstore | apply Hf].
    + apply well_formed_add; [apply Hcur | | | exact Hstable].
      * intros Hex. rewrite bool_decide_eq_true_2 in Hdup by exact Hex.
        discriminate.
      * apply in_range_of_check, Hrange.
  - rewrite remove_section_eq. cbv zeta.
    destruct (find_section nm _) as [[i s] |]; [| apply Hf]. cbn [snd].
    apply coherent_save; [apply Hf | apply well_formed_delete, Hcur].
  - rewrite edit_section_eq. cbv zeta.
    destruct (find_section nm _) as [[i s] |] eqn:Hfind; [| apply Hf].
    destruct (fle pct (fnum 0) || flt (fnum 100) pct) eqn:Hrange;
      [apply Hf |].
    destruct (flt (fnum 100) (fadd _ pct)); [apply Hf |].
    pose proof (parse_color_store col (fetched g w)) as Hstore.
    pose proof (parse_color_result_stable col (fetched g w)) as Hstable.
    destruct (_parse_color col (fetched g w)) as [c w2]. cbn [fst snd] in *.
    apply list_find_Some in Hfind as (Hi & _ & _).
    apply coherent_save.
    + eapply coherent_same_store; [exact Hstore | apply Hf].
    + apply well_formed_edit; [apply Hcur | exact Hi | | exact Hstable].
      apply in_range_of_check, Hrange.
Qed.

Lemma coherent_interaction (e : Interaction F) (w : World F) :
  coherent w -> coherent (run_interaction e w).
Proof.
  intros Hcoh. destruct e as [c | g r | g]; cbn [run_interaction].
  - apply coherent_command, Hcoh.
  - rewrite spin_wheel_eq. apply coherent_fetched, Hcoh.
  - rewrite list_sections_eq. apply coherent_fetched, Hcoh.
Qed.

Lemma coherent_run (es : list (Interaction F)) (w : World F) :
  coherent w -> coherent (run_interactions es w).
Proof.
  revert w. induction es as [| e es IH]; intros w Hcoh; [exact Hcoh |].
  apply IH, coherent_interaction, Hcoh.
Qed.

Lemma coherent_database g (w : World F) :
  coherent w ->
  database w !! g = None \/
  database w !! g = Some (to_dict <$> current_sections g w).
Proof.
  intros Hcoh. specialize (Hcoh g).
  unfold current_sections, get_wheel_sections.
  destruct (wheels w !! g) as [l |]; [| left; exact Hcoh].
  destruct Hcoh as [_ [Hrow | [Hnone _]]]; [right; exact Hrow | left; exact Hnone].
Qed.

Lemma coherent_restart g (w : World F) draws :
  coherent w ->
  current_sections g (restart w draws) = current_sections g w.
Proof.
  intros Hcoh. pose proof (coherent_current g w Hcoh) as [_ Hall].
  specialize (Hcoh g).
  unfold current_sections at 1, get_wheel_sections, restart. simpl.
  rewrite lookup_empty. unfold load_wheel. simpl.
  unfold current_sections, get_wheel_sections in *.
  destruct (wheels w !! g) as [l |].
  - destruct Hcoh as [_ [Hrow | [Hnone ->]]].
    + rewrite Hrow. simpl in Hall.
      rewrite mapM_from_dict_stable; [reflexivity |].
      eapply Forall_impl; [exact Hall |]. intros s [_ Hs]. exact Hs.
    + rewrite Hnone. reflexivity.
  - unfold load_wheel in *. rewrite Hcoh. reflexivity.
Qed.

(** From a fresh start, after any sequence of commands, spins and
    listings, every guild's section list has names that are pairwise
    different once lower-cased (by [str.lower], whatever it does to a name)
    and percentages that passed the range check (not [<= 0], not [> 100]);
    and the guild's database row, once there is one, holds exactly that
    list. *)
Theorem wheels_stay_well_formed (es : list (Interaction F))
    (draws : nat -> Z) (guild_id : Z) :
  NoDup ((fun s => str_lower (name s))
           <$> current_sections guild_id
                 (run_interactions es (fresh_world draws))) /\
  Forall (fun s => fle (percentage s) (fnum 0) = false /\
                   flt (fnum 100) (percentage s) = false)
         (current_sections guild_id
            (run_interactions es (fresh_world draws))) /\
  (database (run_interactions es (fresh_world draws)) !! guild_id = None \/
   database (run_interactions es (fresh_world draws)) !! guild_id
   = Some (to_dict <$> current_sections guild_id
                         (run_interactions es (fresh_world draws)))).
Proof.
  pose proof (coherent_run es _ (coherent_fresh draws)) as Hcoh.
  pose proof (coherent_current guild_id _ Hcoh) as [Hnames Hall].
  split; [exact Hnames |]. split; [| apply coherent_database, Hcoh].
  eapply Forall_impl; [exact Hall |].
  intros s [Hrange _]. unfold in_range in Hrange.
  apply negb_true_iff, orb_false_iff in Hrange. exact Hrange.
Qed.


End Coherence.

(** ** One guild at a time *)

Section Isolation.
Context {F : Type} `{Arith F} {lib : Library}.

Lemma save_other g g' l (w : World F) :
  g' <> g ->
  wheels (snd (save_wheel_sections g l w)) !! g' = wheels w !! g' /\
  database (snd (save_wheel_sections g l w)) !! g' = database w !! g'.
Proof.
  intros Hne. unfold save_wheel_sections, save_wheel. simpl.
  rewrite !lookup_insert_ne by done. done.
Qed.

Lemma fetched_lookups g g' (w : World F) :
  g' <> g ->
  wheels (fetched g w) !! g' = wheels w !! g' /\
  database (fetched g w) !! g' = database w !! g'.
Proof.
  intros Hne. split; [apply fetched_other, Hne |].
  rewrite fetched_database. reflexivity.
Qed.

Lemma save_after_parse_other g g' l col (w : World F) :
  g' <> g ->
  wheels (snd (save_wheel_sections g l (snd (_parse_color col w)))) !! g'
  = wheels w !! g' /\
  database (snd (save_wheel_sections g l (snd (_parse_color col w)))) !! g'
  = database w !! g'.
Proof.
  intros Hne. destruct (save_other g g' l (snd (_parse_color col w)) Hne)
    as [-> ->].
  destruct (parse_color_store col w) as [-> ->]. done.
Qed.

Lemma command_other (c : Command F) (w : World F) g' :
  g' <> guild_of c ->
  wheels (snd (run_command c w)) !! g' = wheels w !! g' /\
  database (snd (run_command c w)) !! g' = database w !! g'.
Proof.
  intros Hne.
  destruct c as [g | g nm pct col | g nm | g nm pct col];
    cbn [run_command guild_of] in *.
  - rewrite create_wheel_eq. apply save_other, Hne.
  - rewrite add_section_eq. cbv zeta.
    destruct (fle pct (fnum 0) || flt (fnum 100) pct);
      [apply fetched_lookups, Hne |].
    destruct (bool_decide _); [apply fetched_lookups, Hne |].
    destruct (flt (fnum 100) (fadd _ pct)); [apply fetched_lookups, Hne |].
    unfold WheelSection_init, bind, ret.
    pose proof (save_after_parse_other g g'
                  (current_sections g w
                   ++ [mkSection nm pct (fst (_parse_color col (fetched g w)))])
                  col (fetched g w) Hne) as Hsave.
    destruct (_parse_color col (fetched g w)) as [c w2]. cbn [fst snd] in *.
    destruct (fetched_lookups g g' w Hne) as [<- <-]. exact Hsave.
  - rewrite remove_section_eq. cbv zeta.
    destruct (find_section nm _) as [[i s] |];
      [| apply fetched_lookups, Hne]. cbn [snd].
    destruct (save_other g g' (delete i (current_sections g w))
                (fetched g w) Hne) as [-> ->].
    apply fetched_lookups, Hne.
  - rewrite edit_section_eq. cbv zeta.
    destruct (find_section nm _) as [[i s] |];
      [| apply fetched_lookups, Hne].
    destruct (fle pct (fnum 0) || flt (fnum 100) pct);
      [apply fetched_lookups, Hne |].
    destruct (flt (fnum 100) (fadd _ pct)); [apply fetched_lookups, Hne |].
    pose proof (save_after_parse_other g g'
                  (<[i := mkSection (name s) pct
                            (fst (_parse_color col (fetched g w)))]>
                     (current_sections g w))
                  col (fetched g w) Hne) as Hsave.
    destruct (_parse_color col (fetched g w)) as [c w2]. cbn [fst snd] in *.
    destruct (fetched_lookups g g' w Hne) as [<- <-]. exact Hsave.
Qed.

Lemma coherent_current_cases g (w : World F) :
  coherent w ->
  current_sections g w = match wheels w !! g with
                         | Some l => l
                         | None => []
                         end.
Proof.
  intros Hcoh. specialize (Hcoh g).
  unfold current_sections, get_wheel_sections.
  destruct (wheels w !! g); [reflexivity |].
  unfold load_wheel. rewrite Hcoh. reflexivity.
Qed.

(** A command, a spin or a listing in one guild leaves every other guild's
    cache entry and database row as they were; in a world where cache and
    database agree (any world the bot reaches from a fresh start), every
    other guild therefore keeps its section list. *)
Theorem other_guilds_untouched (e : Interaction F) (w : World F)
    (guild_id : Z) :
  guild_id <> interaction_guild e ->
  wheels (run_interaction e w) !! guild_id = wheels w !! guild_id /\
  database (run_interaction e w) !! guild_id = database w !! guild_id /\
  (coherent w ->
   current_sections guild_id (run_interaction e w)
   = current_sections guild_id w).
Proof.
  intros Hne.
  assert (Hlook :
    wheels (run_interaction e w) !! guild_id = wheels w !! guild_id /\
    database (run_interaction e w) !! guild_id = database w !! guild_id).
  { destruct e as [c | g r | g]; cbn [run_interaction interaction_guild] in *.
    - apply command_other, Hne.
    - rewrite spin_wheel_eq. apply fetched_lookups, Hne.
    - rewrite list_sections_eq. apply fetched_lookups, Hne. }
  destruct Hlook as [Hw Hd]. split; [exact Hw |]. split; [exact Hd |].
  intros Hcoh.
  rewrite (coherent_current_cases guild_id w Hcoh).
  rewrite (coherent_current_cases guild_id _ (coherent_interaction e w Hcoh)).
  rewrite Hw. reflexivity.
Qed.

End Isolation.

(** ** What the handlers change, and what they leave *)

Section Effects.
Context {F : Type} `{Arith F} {lib : Library}.


(** [/removesection] and [/editsection] answer "no section found" exactly
    when no section of the guild has the name up to case (equal once
    [str.lower] is applied to both names, whatever it does to them); and
    whenever either of them refuses (not found, percentage out of range,
    budget exceeded) the guild's section list and the database are
    unchanged. *)
Theorem lookup_refusals (guild_id : Z) (nm : string) (w : World F) :
  (fst (remove_section guild_id nm w) = SectionNotFound
   <-> ~ Exists (same_name nm) (current_sections guild_id w)) /\
  (fst (remove_section guild_id nm w) = SectionNotFound ->
   current_sections guild_id (snd (remove_section guild_id nm w))
   = current_sections guild_id w /\
   database (snd (remove_section guild_id nm w)) = database w) /\
  forall pct col,
    (fst (edit_section guild_id nm pct col w) = SectionNotFound
     <-> ~ Exists (same_name nm) (current_sections guild_id w)) /\
    (edit_rejected (fst (edit_section guild_id nm pct col w)) ->
     current_sections guild_id (snd (edit_section guild_id nm pct col w))
     = current_sections guild_id w /\
     database (snd (edit_section guild_id nm pct col w)) = database w).
Proof.
  assert (Hkept :
    current_sections guild_id (fetched guild_id w)
    = current_sections guild_id w /\
    database (fetched guild_id w) = database w).
  { split; [apply fetched_current | apply fetched_database]. }
  assert (Hfind :
    find_section nm (current_sections guild_id w) = None
    <-> ~ Exists (same_name nm) (current_sections guild_id w)).
  { unfold find_section. rewrite list_find_None, Forall_Exists_neg.
    reflexivity. }
  rewrite remove_section_eq. cbv zeta.
  split; [| split].
  - destruct (find_section nm _) as [[i s] |].
    + split; [discriminate |]. intros Hno. apply Hfind in Hno. discriminate.
    + split; [intros _; apply Hfind; reflexivity | reflexivity].
  - destruct (find_section nm _) as [[i s] |]; [discriminate |].
    intros _. exact Hkept.
  - intros pct col. rewrite edit_section_eq. cbv zeta.
    destruct (find_section nm _) as [[i s] |] eqn:Hf.
    + split.
      * split.
        -- destruct (fle pct (fnum 0) || flt (fnum 100) pct); [discriminate |].
           destruct (flt (fnum 100) (fadd _ pct)); [discriminate |].
           destruct (_parse_color col _). discriminate.
        -- intros Hno. apply Hfind in Hno. discriminate.
      * destruct (fle pct (fnum 0) || flt (fnum 100) pct);
          [intros _; exact Hkept |].
        destruct (flt (fnum 100) (fadd _ pct)); [intros _; exact Hkept |].
        destruct (_parse_color col _) as [c w2]. cbn [fst].
        intros [Hr | [Hr | [t Hr]]]; discriminate.
    + split; [| intros _; exact Hkept].
      split; [intros _; apply Hfind; reflexivity | reflexivity].
Qed.

(** Removing a section right after it was added undoes the addition: the
    removal finds the new section, and the guild's list is again the list
    from before the addition, which is also what the database then holds. *)
Theorem add_then_remove (guild_id : Z) (nm : string) (pct : F) (col : string)
    (w : World F) (new_section : WheelSection F) (new_total : F) :
  fst (add_section guild_id nm pct col w)
  = SectionAdded new_section new_total ->
  fst (remove_section guild_id nm (snd (add_section guild_id nm pct col w)))
  = SectionRemoved new_section
      (List.length (current_sections guild_id w))
      (calculate_total_percentage (current_sections guild_id w)) /\
  current_sections guild_id
    (snd (remove_section guild_id nm
            (snd (add_section guild_id nm pct col w))))
  = current_sections guild_id w /\
  database
    (snd (remove_section guild_id nm
            (snd (add_section guild_id nm pct col w)))) !! guild_id
  = Some (to_dict <$> current_sections guild_id w).
Proof.
  rewrite add_section_eq. cbv zeta.
  destruct (fle pct (fnum 0) || flt (fnum 100) pct); [discriminate |].
  destruct (bool_decide (Exists (same_name nm) (current_sections guild_id w)))
    eqn:Hdup; [discriminate |].
  destruct (flt (fnum 100) (fadd _ pct)); [discriminate |].
  unfold WheelSection_init, bind, ret.
  destruct (_parse_color col (fetched guild_id w)) as [c w2].
  cbn [fst snd]. intros [= <- <-].
  set (sections := current_sections guild_id w).
  set (w3 := snd (save_wheel_sections guild_id
                    (sections ++ [mkSection nm pct c]) w2)).
  assert (Hcur : current_sections guild_id w3
                 = (sections ++ [mkSection nm pct c])%list)
    by apply current_sections_after_save.
  assert (Hfind : find_section nm (sections ++ [mkSection nm pct c])%list
                  = Some (List.length sections, mkSection nm pct c)).
  { unfold find_section. apply list_find_Some.
    split; [apply list_lookup_middle; reflexivity |].
    split; [reflexivity |].
    intros j s' Hs' Hj Hsame.
    rewrite lookup_app_l in Hs' by exact Hj.
    assert (Hex : Exists (same_name nm) sections).
    { apply Exists_exists. exists s'. split; [| exact Hsame].
      eapply list_elem_of_lookup_2, Hs'. }
    rewrite bool_decide_eq_true_2 in Hdup by exact Hex. discriminate. }
  rewrite remove_section_eq. cbv zeta. rewrite Hcur, Hfind. cbn [fst snd].
  rewrite delete_middle, app_nil_r.
  split; [reflexivity |]. split.
  - apply current_sections_after_save.
  - rewrite database_after_save. apply lookup_insert_eq.
Qed.

(** [/createwheel] always succeeds and empties the guild's wheel, whatever
    it held: the list and the database row are empty afterwards, a spin is
    refused as an empty wheel and a listing has nothing to show. *)
Theorem create_wheel_resets (guild_id : Z) (w : World F) :
  fst (create_wheel guild_id w) = WheelCreated /\
  current_sections guild_id (snd (create_wheel guild_id w)) = [] /\
  database (snd (create_wheel guild_id w)) !! guild_id = Some [] /\
  (forall rand_num,
     fst (spin_wheel guild_id rand_num (snd (create_wheel guild_id w)))
     = EmptyWheel) /\
  fst (list_sections guild_id (snd (create_wheel guild_id w))) = NoSections.
Proof.
  rewrite create_wheel_eq. cbn [fst snd].
  assert (Hcur : current_sections guild_id
                   (snd (save_wheel_sections guild_id [] w)) = [])
    by apply current_sections_after_save.
  split; [reflexivity |]. split; [exact Hcur |].
  split; [rewrite database_after_save; apply lookup_insert_eq |].
  split.
  - intros r. rewrite spin_wheel_eq. cbv zeta. rewrite Hcur. reflexivity.
  - rewrite list_sections_eq, Hcur. reflexivity.
Qed.

End Effects.

(** ** Listings and images *)

Section Images.
Context {F : Type} `{Arith F} {lib : Library}.

Lemma draw_sections_outline winner (sections : list (WheelSection F)) :
  forall acc i s slice,
    sections !! i = Some s ->
    draw_sections winner acc sections !! i = Some slice ->
    highlighted slice = is_winner winner s.
Proof.
  induction sections as [| s0 rest IH]; intros acc i s slice Hi Hslice;
    [discriminate |].
  destruct i as [| i].
  - injection Hi as ->. cbn [draw_sections] in Hslice.
    injection Hslice as <-. unfold highlighted, _draw_pie_slice.
    cbn [outline_color outline_width].
    destruct (is_winner winner s); reflexivity.
  - eapply IH; [exact Hi | exact Hslice].
Qed.

Lemma draw_sections_no_winner acc (sections : list (WheelSection F)) :
  Forall (fun slice => highlighted slice = false)
         (draw_sections None acc sections).
Proof.
  revert acc. induction sections as [| s rest IH]; intros acc;
    [constructor |].
  cbn [draw_sections]. constructor; [reflexivity | apply IH].
Qed.

(** [/listsections] never changes the guild's list or the database.  It
    refuses exactly the empty wheel.  On any other wheel it draws the
    preview, and when Pillow cannot draw some section that raises and the
    listing is lost.  Otherwise the listing it puts together has one field
    per section, in list order and numbered from 1, the total, the remaining
    percentage [100 - total] exactly when the total is below 100, and a
    preview image with one slice per section of which none is
    highlighted. *)
Theorem list_sections_shows (guild_id : Z) (w : World F) :
  current_sections guild_id (snd (list_sections guild_id w))
  = current_sections guild_id w /\
  database (snd (list_sections guild_id w)) = database w /\
  (fst (list_sections guild_id w) = NoSections
   <-> current_sections guild_id w = []) /\
  (fst (list_sections guild_id w) = ListingFailed
   <-> current_sections guild_id w <> [] /\
       Exists (fun s => drawn s = false)
              (current_sections guild_id w)) /\
  forall count fields total remaining preview,
    fst (list_sections guild_id w)
    = SectionList count fields total remaining preview ->
    Forall (fun s => drawn s = true)
           (current_sections guild_id w) /\
    count = List.length (current_sections guild_id w) /\
    (forall i s, fields !! i = Some (S i, s)
                 <-> current_sections guild_id w !! i = Some s) /\
    List.length fields = count /\
    total = calculate_total_percentage (current_sections guild_id w) /\
    remaining = (if flt total (fnum 100) then Some (fsub (fnum 100) total)
                 else None) /\
    List.length preview = count /\
    Forall (fun slice => highlighted slice = false) preview.
Proof.
  rewrite list_sections_eq. cbn [fst snd].
  rewrite fetched_current, fetched_database.
  split; [reflexivity |]. split; [reflexivity |].
  assert (Hfields : forall i s,
    imap (fun i section => (S i, section)) (current_sections guild_id w) !! i
    = Some (S i, s) <-> current_sections guild_id w !! i = Some s).
  { intros i s. rewrite list_lookup_imap.
    destruct (current_sections guild_id w !! i) as [s' |]; simpl; [| done].
    split; congruence. }
  pose proof (length_imap (fun i section => (S i, section))
                (current_sections guild_id w)) as Hcount.
  pose proof (draw_sections_length None (fnum 0)
                (current_sections guild_id w)) as Hslices.
  pose proof (draw_sections_no_winner (fnum 0)
                (current_sections guild_id w)) as Hplain.
  pose proof (image_drawn_Forall (current_sections guild_id w)) as Hgood.
  rewrite image_drawn_Exists.
  destruct (current_sections guild_id w) as [| s0 rest].
  - split; [done |]. split; [split; [discriminate | intros [? _]; done] |].
    intros count fields total remaining preview Hl. discriminate.
  - destruct (image_drawn (s0 :: rest)) eqn:Hdrawn.
    + split; [done |]. split; [split; [discriminate | intros [_ ?]; done] |].
      intros count fields total remaining preview Hl.
      injection Hl as <- <- <- <- <-.
      split; [apply Hgood; reflexivity |]. split; [reflexivity |].
      split; [exact Hfields |].
      split; [exact Hcount |]. split; [reflexivity |].
      split; [reflexivity |]. split; [exact Hslices | exact Hplain].
    + split; [done |]. split; [done |].
      intros count fields total remaining preview Hl. discriminate.
Qed.

(** The image of a successful spin has one slice per section, and a slice
    is drawn with the winner's outline exactly when its section bears the
    reported name and that name is not empty.  So the reported section is
    highlighted unless the winner is an unnamed first section, in which case
    no slice is. *)
Theorem spin_image_highlight (guild_id : Z) (rand_num : F) (w : World F)
    (winner : string) (winner_section : WheelSection F) :
  fst (spin_wheel guild_id rand_num w) = SpinResult winner winner_section ->
  exists image,
    fst (spin_wheel_image guild_id rand_num w) = Some image /\
    List.length image = List.length (current_sections guild_id w) /\
    forall i s slice,
      current_sections guild_id w !! i = Some s ->
      image !! i = Some slice ->
      (highlighted slice = true
       <-> winner <> EmptyString /\ name s = winner).
Proof.
  rewrite spin_wheel_eq, spin_wheel_image_eq. cbv zeta. cbn [fst].
  destruct (current_sections guild_id w) as [| s0 rest]; [discriminate |].
  set (sections := s0 :: rest).
  destruct (flt _ _); [discriminate |].
  destruct (image_drawn sections); [| discriminate].
  destruct (winner_lookup _ sections) as [[k ws] |]; [| discriminate].
  intros [= <- <-]. eexists. split; [reflexivity |].
  split; [apply draw_sections_length |].
  intros i s slice Hi Hslice.
  rewrite (draw_sections_outline _ sections _ i s slice Hi Hslice).
  unfold is_winner.
  destruct (String.eqb_spec (spin_winner rand_num sections) EmptyString)
    as [He | Hne]; cbn [negb andb].
  - split; [discriminate | intros [Hw _]; done].
  - destruct (String.eqb_spec (name s) (spin_winner rand_num sections));
      split; try done. intros [_ Hn]. done.
Qed.

End Images.

(** ** Additions within the budget, in any arithmetic *)

Section AddSequences.
Context {F : Type} `{Arith F} {lib : Library}.

Lemma command_current_other (c : Command F) (w : World F) g :
  coherent w -> g <> guild_of c ->
  current_sections g (snd (run_command c w)) = current_sections g w.
Proof.
  intros Hcoh Hne.
  rewrite (coherent_current_cases g w Hcoh).
  rewrite (coherent_current_cases g _ (coherent_command c w Hcoh)).
  destruct (command_other c w g Hne) as [-> _]. reflexivity.
Qed.

Lemma total_snoc (l : list (WheelSection F)) (s : WheelSection F) :
  calculate_total_percentage (l ++ [s])%list
  = fadd (calculate_total_percentage l) (percentage s).
Proof.
  unfold calculate_total_percentage. rewrite fmap_app, fold_left_app.
  reflexivity.
Qed.

Lemma creates_or_adds_step (c : Command F) (w : World F) :
  flt (fnum 100) (fnum 0) = false ->
  creates_or_adds c = true ->
  coherent w ->
  (forall g, not_over_100 (current_sections g w)) ->
  forall g, not_over_100 (current_sections g (snd (run_command c w))).
Proof.
  intros Hzero Hc Hcoh Hall g.
  destruct (decide (g = guild_of c)) as [-> | Hne];
    [| rewrite command_current_other by assumption; apply Hall].
  destruct c as [g | g nm pct col | g nm | g nm pct col];
    try discriminate; cbn [run_command guild_of].
  - rewrite create_wheel_eq. cbn [snd].
    rewrite current_sections_after_save. exact Hzero.
  - rewrite add_section_eq. cbv zeta.
    destruct (fle pct (fnum 0) || flt (fnum 100) pct);
      [cbn [snd]; rewrite fetched_current; apply Hall |].
    destruct (bool_decide _);
      [cbn [snd]; rewrite fetched_current; apply Hall |].
    destruct (flt (fnum 100) (fadd _ pct)) eqn:Hover;
      [cbn [snd]; rewrite fetched_current; apply Hall |].
    unfold WheelSection_init, bind, ret.
    destruct (_parse_color col (fetched g w)) as [c w2]. cbn [snd].
    rewrite current_sections_after_save. unfold not_over_100.
    rewrite total_snoc. exact Hover.
Qed.


End AddSequences.

(** ** The properties above on concrete wheels *)

Lemma other_guilds_untouched_witness :
  wheels (run_interaction (Change (AddSection 1 "D" 10%float "red"))
            alpha_wheel) !! 2
  = wheels alpha_wheel !! 2 /\
  database (run_interaction (Change (AddSection 1 "D" 10%float "red"))
              alpha_wheel) !! 2
  = database alpha_wheel !! 2.
Proof.
  destruct (other_guilds_untouched
              (Change (AddSection 1 "D" 10%float "red")) alpha_wheel 2)
    as (Hw & Hd & _).
  - cbn [interaction_guild guild_of]. lia.
  - split; assumption.
Defined.


Lemma add_then_remove_witness :
  current_sections 1
    (snd (remove_section 1 "Beta"
            (snd (add_section 1 "Beta" 25%float "teal" alpha_wheel))))
  = current_sections 1 alpha_wheel.
Proof.
  destruct (add_then_remove 1 "Beta" 25%float "teal" alpha_wheel
              (mkSection "Beta" 25%float "#008080") 75%float)
    as (_ & Hlist & _).
  - vm_compute. reflexivity.
  - exact Hlist.
Defined.

Lemma spin_image_highlight_witness :
  exists image,
    fst (spin_wheel_image 1 draw_30_0001 saved_wheel) = Some image /\
    List.length image = List.length (current_sections 1 saved_wheel).
Proof.
  destruct (spin_image_highlight 1 draw_30_0001 saved_wheel "B"
              (mkSection "B" 30%float "#0000FF"))
    as (image & Himage & Hlen & _).
  - vm_compute. reflexivity.
  - exists image. split; assumption.
Defined.

